(** * ProtocolRouter: route table, path matching and dispatch

    A shallow embedding of [src/router.ts] (class [ProtocolRouter]).

    Conventions of the embedding:
    - JavaScript strings are byte strings holding their UTF-8 encoding;
      [url.host], [url.pathname] and [request.method] are ASCII anyway.
    - [async]/[await] is sequential in the dispatcher (every call is awaited
      before the next statement runs), so a promise that rejects is a call
      that throws: both are a [Throw] completion.
    - Handlers and the context builder are closures with side effects; they
      are state transformers over a type [World] of everything they can
      touch.
    - The dispatcher additionally produces a trace, a list of [Event], of
      what it did (builder invocations, handler invocations, assignments
      to [lastError]); the trace is ghost data, nothing in the dispatcher
      reads it.
    - A [Response] is its status and the data its body was built from.
      [Response.json] serializes the data: it fails where
      [JSON.stringify] throws, and the text it produces otherwise is not
      part of the embedding.
    - [params] is one object per matched pattern, handed to every handler
      of the pattern; a handler may write to it, and the next handler gets
      the object as it was left.
    - The route table is not part of [World]: no handler registers a
      handler on the router that is dispatching to it. *)

From Stdlib Require Import ZArith Ascii String List Lia Bool.
From stdpp Require Import base strings gmap.
Import ListNotations.

Local Open Scope string_scope.
Local Open Scope list_scope.

(** ** JavaScript values *)

(** The values that can be thrown, passed as a context or put in a JSON
    body.  [JSResponse status body] is an instance of [Response]. *)
#[local] Unset Elimination Schemes.
Inductive JSValue : Type :=
| JSUndefined
| JSNull
| JSBool (b : bool)
| JSNumber (n : Z)
| JSNaN
| JSString (s : string)
| JSError (name message : string)
| JSObject (props : list (string * JSValue))
| JSResponse (status : Z) (body : JSValue)
| JSBigInt (n : Z)
| JSCyclic
| JSThrowingJSON (error : JSValue).
#[local] Set Elimination Schemes.

(** [JSObject] is a plain object with its own enumerable properties in
    order, [JSCyclic] an object that holds a reference to itself and
    [JSThrowingJSON error] an object whose [toJSON] method (or a getter)
    throws [error]. *)

(** ToBoolean: [undefined], [null], [false], [0], [0n], [NaN] and the
    empty string are falsy, every object is truthy. *)
Definition truthy (v : JSValue) : bool :=
  match v with
  | JSUndefined | JSNull | JSNaN => false
  | JSBool b => b
  | JSNumber n => negb (n =? 0)%Z
  | JSBigInt n => negb (n =? 0)%Z
  | JSString s => negb (String.eqb s "")
  | JSError _ _ | JSObject _ | JSResponse _ _ | JSCyclic | JSThrowingJSON _ => true
  end.

Definition bigIntTypeError : JSValue :=
  JSError "TypeError" "Do not know how to serialize a BigInt".

Definition cyclicTypeError : JSValue :=
  JSError "TypeError" "Converting circular structure to JSON".

(** What [JSON.stringify(v)] throws, if it throws: a [TypeError] for a
    BigInt and for a cyclic structure, what [toJSON] throws, and for a plain
    object what its first property that cannot be serialized throws.  An
    [Error] and a [Response] have no enumerable property of their own and
    give [{}]. *)
Fixpoint stringifyThrows (v : JSValue) : option JSValue :=
  match v with
  | JSBigInt _ => Some bigIntTypeError
  | JSCyclic => Some cyclicTypeError
  | JSThrowingJSON error => Some error
  | JSObject props =>
      (fix first (ps : list (string * JSValue)) : option JSValue :=
         match ps with
         | [] => None
         | (_, x) :: rest =>
             match stringifyThrows x with
             | Some error => Some error
             | None => first rest
             end
         end) props
  | _ => None
  end.

(** A [Response]: its status and the data its body was made from. *)
Record Response : Type := mkResponse { status : Z; body : JSValue }.

Definition valueOfResponse (r : Response) : JSValue :=
  JSResponse (status r) (body r).

(** [error instanceof Response] *)
Definition instanceofResponse (v : JSValue) : option Response :=
  match v with
  | JSResponse st b => Some {| status := st; body := b |}
  | _ => None
  end.

(** How a call ends: it returns or it throws. *)
Inductive Completion (A : Type) : Type :=
| Normal (a : A)
| Throw (e : JSValue).
Arguments Normal {A} a.
Arguments Throw {A} e.

(** [Response.json(data, { status })]: the response, or what the
    serialization of [data] throws. *)
Definition Response_json (data : JSValue) (st : Z) : Completion Response :=
  match stringifyThrows data with
  | Some error => Throw error
  | None => Normal {| status := st; body := data |}
  end.

(** ** Strings *)

Definition slash : ascii := "/"%char.
Definition colon : ascii := ":"%char.
Definition percent : ascii := "%"%char.

(** [s.split('/')]: never empty, [''.split('/')] is [['']]. *)
Fixpoint split (s : string) : list string :=
  match s with
  | EmptyString => [EmptyString]
  | String c rest =>
      if Ascii.eqb c slash then EmptyString :: split rest
      else match split rest with
           | [] => [String c EmptyString]
           | seg :: segs => String c seg :: segs
           end
  end.

(** [s.startsWith(':')] *)
Definition startsWithColon (s : string) : bool :=
  match s with
  | String c _ => Ascii.eqb c colon
  | EmptyString => false
  end.

(** [s.slice(1)] *)
Definition slice1 (s : string) : string :=
  match s with
  | String _ rest => rest
  | EmptyString => EmptyString
  end.

Definition upperChar (c : ascii) : ascii :=
  let n := nat_of_ascii c in
  if (97 <=? n)%nat && (n <=? 122)%nat then ascii_of_nat (n - 32) else c.

(** [s.toUpperCase()] on an ASCII string. *)
Fixpoint toUpperCase (s : string) : string :=
  match s with
  | EmptyString => EmptyString
  | String c rest => String (upperChar c) (toUpperCase rest)
  end.

(** ** decodeURIComponent

    The ECMAScript [Decode] operation with an empty reserved set.  A [%]
    must be followed by two hexadecimal digits; an escaped octet below
    0x80 stands for itself; an escaped octet from 0x80 up must start a run
    of escapes that spell the UTF-8 encoding of one code point (no overlong
    form, no surrogate, nothing above U+10FFFF).  Anything else is a
    [URIError].  The decoder is a state machine: [pending] counts the
    continuation octets still owed and [lo], [hi] bound the next one. *)

Definition URIError : JSValue := JSError "URIError" "URI malformed".

Definition hexDigit (c : ascii) : option nat :=
  let n := nat_of_ascii c in
  if (48 <=? n)%nat && (n <=? 57)%nat then Some (n - 48)%nat
  else if (65 <=? n)%nat && (n <=? 70)%nat then Some (n - 55)%nat
  else if (97 <=? n)%nat && (n <=? 102)%nat then Some (n - 87)%nat
  else None.

Definition octet (a b : ascii) : option nat :=
  match hexDigit a, hexDigit b with
  | Some h, Some l => Some (16 * h + l)%nat
  | _, _ => None
  end.

Definition inRange (lo hi b : nat) : bool := (lo <=? b)%nat && (b <=? hi)%nat.

(** What a leading octet >= 0x80 demands: how many continuation octets and
    the range of the first of them. *)
Definition leadOctet (b : nat) : option (nat * nat * nat) :=
  if inRange 194 223 b then Some (1, 128, 191)%nat
  else if (b =? 224)%nat then Some (2, 160, 191)%nat
  else if (b =? 237)%nat then Some (2, 128, 159)%nat
  else if inRange 225 239 b then Some (2, 128, 191)%nat
  else if (b =? 240)%nat then Some (3, 144, 191)%nat
  else if inRange 241 243 b then Some (3, 128, 191)%nat
  else if (b =? 244)%nat then Some (3, 128, 143)%nat
  else None.

Definition consChar (c : ascii) (r : Completion string) : Completion string :=
  match r with
  | Normal s => Normal (String c s)
  | Throw e => Throw e
  end.

Fixpoint decodeFrom (pending lo hi : nat) (s : string) : Completion string :=
  match pending with
  | O =>
      match s with
      | EmptyString => Normal EmptyString
      | String c rest =>
          if Ascii.eqb c percent then
            match rest with
            | String a (String b rest') =>
                match octet a b with
                | None => Throw URIError
                | Some o =>
                    if (o <? 128)%nat
                    then consChar (ascii_of_nat o) (decodeFrom 0 0 0 rest')
                    else match leadOctet o with
                         | Some (n, lo', hi') =>
                             consChar (ascii_of_nat o) (decodeFrom n lo' hi' rest')
                         | None => Throw URIError
                         end
                end
            | _ => Throw URIError
            end
          else consChar c (decodeFrom 0 0 0 rest)
      end
  | S pending' =>
      match s with
      | String c (String a (String b rest')) =>
          if Ascii.eqb c percent then
            match octet a b with
            | Some o =>
                if inRange lo hi o
                then consChar (ascii_of_nat o) (decodeFrom pending' 128 191 rest')
                else Throw URIError
            | None => Throw URIError
            end
          else Throw URIError
      | _ => Throw URIError
      end
  end.

Definition decodeURIComponent (s : string) : Completion string :=
  decodeFrom 0 0 0 s.

(** ** Requests, methods, handlers *)

Inductive HttpMethod : Type :=
| GET | POST | PUT | DELETE | PATCH | HEAD | OPTIONS | TRACE | CONNECT.

(** The string value of an enum member. *)
Definition methodName (m : HttpMethod) : string :=
  match m with
  | GET => "GET" | POST => "POST" | PUT => "PUT" | DELETE => "DELETE"
  | PATCH => "PATCH" | HEAD => "HEAD" | OPTIONS => "OPTIONS"
  | TRACE => "TRACE" | CONNECT => "CONNECT"
  end.

(** A key of [#routes]: [HttpMethod | '*']. *)
Inductive MethodKey : Type :=
| Wildcard
| Method (m : HttpMethod).

Definition keyName (k : MethodKey) : string :=
  match k with
  | Wildcard => "*"
  | Method m => methodName m
  end.

Definition MethodKey_eqb (a b : MethodKey) : bool :=
  String.eqb (keyName a) (keyName b).

(** What [new URL(request.url)] exposes to the dispatcher.  The [url] of a
    [Request] is always a serialized absolute URL, so the constructor does
    not throw there and the outermost [catch] of the dispatcher is never
    entered. *)
Record URL : Type := mkURL { host : string; pathname : string }.

Record Request : Type := mkRequest { url : URL; method : string }.

(** [params]: an object literal used as a map from names to strings. *)
Abbreviation Params := (gmap string string).

(** [params[name] = value] on an object created by [{}].  The name
    [__proto__] hits the accessor inherited from [Object.prototype], whose
    setter ignores a string: no own property is created. *)
Definition setParam (name value : string) (params : Params) : Params :=
  if String.eqb name "__proto__" then params else <[name := value]> params.

Section Router.

Context {World : Type}.

(** A [ProtocolHandler]: the number of declared parameters
    ([handler.length]) and what a call does.  The second argument of a call
    is absent ([None]) or the context.  [call] is how the call ends and the
    world after it, [writes] the [params] object after it: the handler is
    given the object itself and may add, change or delete its
    properties. *)
Record ProtocolHandler : Type := mkHandler {
  handler_length : nat;
  call : Request -> Params -> option JSValue -> World ->
         Completion Response * World;
  writes : Request -> Params -> option JSValue -> World -> Params
}.

Definition ContextBuilder : Type :=
  Request -> World -> Completion JSValue * World.

(** A [Map<string, [ProtocolHandler]>] in insertion order. *)
Definition RouteMap : Type := list (string * list ProtocolHandler).

(** [#routes] as [Object.entries] enumerates it: keys in insertion order. *)
Definition Routes : Type := list (MethodKey * RouteMap).

Record ProtocolRouter : Type := mkRouter {
  contextBuilder : option ContextBuilder;
  routes : Routes
}.

(** [new ProtocolRouter(contextBuilder?)] *)
Definition newRouter (cb : option ContextBuilder) : ProtocolRouter :=
  {| contextBuilder := cb; routes := [] |}.

(** ** Registration *)

(** [map.get(path)] *)
Fixpoint Map_get (path : string) (m : RouteMap) : option (list ProtocolHandler) :=
  match m with
  | [] => None
  | (p, hs) :: rest => if String.eqb p path then Some hs else Map_get path rest
  end.

(** [map.set(path, hs)]: an existing key keeps its place, a new one goes
    last. *)
Fixpoint Map_set (path : string) (hs : list ProtocolHandler) (m : RouteMap)
  : RouteMap :=
  match m with
  | [] => [(path, hs)]
  | (p, old) :: rest =>
      if String.eqb p path then (p, hs) :: rest
      else (p, old) :: Map_set path hs rest
  end.

(** [this.#routes[method]] *)
Fixpoint routes_get (k : MethodKey) (r : Routes) : option RouteMap :=
  match r with
  | [] => None
  | (k', m) :: rest => if MethodKey_eqb k' k then Some m else routes_get k rest
  end.

(** [this.#routes[method] = m] *)
Fixpoint routes_set (k : MethodKey) (m : RouteMap) (r : Routes) : Routes :=
  match r with
  | [] => [(k, m)]
  | (k', old) :: rest =>
      if MethodKey_eqb k' k then (k', m) :: rest
      else (k', old) :: routes_set k m rest
  end.

(** [#add(method, path, handler)] on the route table.  [handlers.push]
    mutates the array the map holds, which is the map holding the longer
    array. *)
Definition add_routes (k : MethodKey) (path : string) (handler : ProtocolHandler)
    (r : Routes) : Routes :=
  match routes_get k r with
  | None => routes_set k (Map_set path [handler] []) r
  | Some m =>
      match Map_get path m with
      | Some handlers => routes_set k (Map_set path (handlers ++ [handler]) m) r
      | None => routes_set k (Map_set path [handler] m) r
      end
  end.

Definition add (k : MethodKey) (path : string) (handler : ProtocolHandler)
    (router : ProtocolRouter) : ProtocolRouter :=
  {| contextBuilder := contextBuilder router;
     routes := add_routes k path handler (routes router) |}.

(** [this[method.toLowerCase()] = this.#add.bind(this, method)] *)
Definition methodFn (m : HttpMethod) :
    string -> ProtocolHandler -> ProtocolRouter -> ProtocolRouter :=
  add (Method m).

Definition on (path : string) (handler : ProtocolHandler)
    (router : ProtocolRouter) : ProtocolRouter :=
  add Wildcard path handler router.

(** The handlers stored under a (method, pattern) key. *)
Definition handlersAt (k : MethodKey) (path : string) (r : Routes)
  : option (list ProtocolHandler) :=
  match routes_get k r with
  | Some m => Map_get path m
  | None => None
  end.

(** ** Path matching *)

(** The loop over [i]; [routeParts] and [pathParts] have the same length
    when it runs, so it visits the pairs [(routeParts[i], pathParts[i])]. *)
Fixpoint matchParts (pairs : list (string * string)) (params : Params)
  : Completion (option Params) :=
  match pairs with
  | [] => Normal (Some params)
  | (routePart, pathPart) :: rest =>
      if startsWithColon routePart then
        match decodeURIComponent pathPart with
        | Normal value => matchParts rest (setParam (slice1 routePart) value params)
        | Throw error => Throw error
        end
      else if negb (String.eqb routePart pathPart) then Normal None
      else matchParts rest params
  end.

(** One pattern against the request's segments: [Normal None] is no match,
    [Normal (Some params)] a match, [Throw] an exception out of
    [decodeURIComponent]. *)
Definition matchRoute (path : string) (pathParts : list string)
  : Completion (option Params) :=
  let routeParts := split path in
  if negb (Nat.eqb (length routeParts) (length pathParts)) then Normal None
  else matchParts (combine routeParts pathParts) ∅.

(** [`/${url.host}${url.pathname}`.split('/')] *)
Definition pathPartsOf (request : Request) : list string :=
  split (String slash (host (url request) +:+ pathname (url request))).

(** ** Dispatch *)

Inductive Event : Type :=
| BuilderCalled (request : Request) (result : Completion JSValue)
| HandlerCalled (handler : ProtocolHandler) (request : Request)
    (params : Params) (context : option JSValue) (result : Completion Response)
| ErrorRecorded (error : JSValue).

(** Where a loop of the dispatcher stands when it ends: the response it
    returned (if it did), [lastError], the world, and what happened. *)
Record Run : Type := mkRun {
  returned : option Response;
  lastError : JSValue;
  world : World;
  trace : list Event
}.

Definition emit (evs : list Event) (r : Run) : Run :=
  {| returned := returned r; lastError := lastError r; world := world r;
     trace := evs ++ trace r |}.

(** A loop iteration that goes on to the next one. *)
Definition continue (last : JSValue) (w : World) (evs : list Event) : Run :=
  {| returned := None; lastError := last; world := w; trace := evs |}.

(** A [return] out of the dispatcher. *)
Definition done (response : Response) (last : JSValue) (w : World)
    (evs : list Event) : Run :=
  {| returned := Some response; lastError := last; world := w; trace := evs |}.

(** [for (const x of items) body]: an iteration that returns ends the
    loop, one that does not hands [lastError] and the world to the next. *)
Fixpoint forEach {A : Type} (body : A -> JSValue -> World -> Run)
    (items : list A) (last : JSValue) (w : World) : Run :=
  match items with
  | [] => continue last w []
  | x :: rest =>
      let r := body x last w in
      match returned r with
      | Some _ => r
      | None => emit (trace r) (forEach body rest (lastError r) (world r))
      end
  end.

Section Dispatch.

Variable builder : option ContextBuilder.
Variable request : Request.

(** [return await handler(...)] under the [catch] that records the error
    and continues. *)
Definition invoke (handler : ProtocolHandler) (params : Params)
    (context : option JSValue) (last : JSValue) (w : World)
    (before : list Event) : Run :=
  let '(result, w') := call handler request params context w in
  let ev := HandlerCalled handler request params context result in
  match result with
  | Normal response => done response last w' (before ++ [ev])
  | Throw error => continue error w' (before ++ [ev; ErrorRecorded error])
  end.

(** The body of [for (const handler of handlers)]. *)
Definition attempt (params : Params) (handler : ProtocolHandler)
    (last : JSValue) (w : World) : Run :=
  match builder with
  | None => invoke handler params None last w []
  | Some contextBuilder =>
      let '(built, w') := contextBuilder request w in
      let ev := BuilderCalled request built in
      match built with
      | Normal context => invoke handler params (Some context) last w' [ev]
      | Throw error =>
          match instanceofResponse error with
          | Some response => done response last w' [ev]
          | None =>
              if (handler_length handler <? 2)%nat
              then invoke handler params None last w' [ev]
              else continue error w' [ev; ErrorRecorded error]
          end
      end
  end.

(** The [params] object after the body of the loop ran for [handler]: as
    the handler left it when it was invoked, untouched when it was not. *)
Definition paramsAfter (params : Params) (handler : ProtocolHandler)
    (w : World) : Params :=
  match builder with
  | None => writes handler request params None w
  | Some contextBuilder =>
      let '(built, w') := contextBuilder request w in
      match built with
      | Normal context => writes handler request params (Some context) w'
      | Throw error =>
          match instanceofResponse error with
          | Some _ => params
          | None =>
              if (handler_length handler <? 2)%nat
              then writes handler request params None w'
              else params
          end
      end
  end.

(** [for (const handler of handlers)]: every iteration is given the one
    [params] object of the pattern, in the state the iterations before
    left it. *)
Fixpoint tryHandlers (handlers : list ProtocolHandler) (params : Params)
    (last : JSValue) (w : World) : Run :=
  match handlers with
  | [] => continue last w []
  | handler :: rest =>
      let r := attempt params handler last w in
      match returned r with
      | Some _ => r
      | None =>
          emit (trace r)
            (tryHandlers rest (paramsAfter params handler w) (lastError r) (world r))
      end
  end.

(** The body of [for (const [path, handlers] of entry)]. *)
Definition tryPattern (pathParts : list string)
    (entry : string * list ProtocolHandler) (last : JSValue) (w : World) : Run :=
  let '(path, handlers) := entry in
  match matchRoute path pathParts with
  | Normal None => continue last w []
  | Normal (Some params) => tryHandlers handlers params last w
  | Throw error => continue error w [ErrorRecorded error]
  end.

(** [method !== '*' && method !== requestMethod] *)
Definition skipped (k : MethodKey) (requestMethod : string) : bool :=
  negb (String.eqb (keyName k) "*") && negb (String.eqb (keyName k) requestMethod).

(** The body of [for (const [method, entry] of entries)]. *)
Definition tryBucket (pathParts : list string) (requestMethod : string)
    (bucket : MethodKey * RouteMap) (last : JSValue) (w : World) : Run :=
  let '(k, entry) := bucket in
  if skipped k requestMethod then continue last w []
  else forEach (tryPattern pathParts) entry last w.

(** The [try] block of the dispatcher. *)
Definition scan (table : Routes) (w : World) : Run :=
  forEach (tryBucket (pathPartsOf request) (toUpperCase (method request)))
    table JSNull w.

End Dispatch.

(** The two responses the dispatcher makes itself, when the
    serialization of their data succeeds. *)
Definition notFound : Response :=
  {| status := 404; body := JSObject [("message", JSString "Not found")] |}.

Definition internalError (reason : JSValue) : Response :=
  {| status := 500;
     body := JSObject [("message", JSString "Internal error"); ("reason", reason)] |}.

(** What follows the [try] block: [if (lastError) ... else ...].  The two
    calls of [Response.json] stand outside every [try]: what they throw
    is what the dispatcher throws. *)
Definition conclude (r : Run) : Completion Response :=
  match returned r with
  | Some response => Normal response
  | None =>
      if truthy (lastError r)
      then Response_json
             (JSObject [("message", JSString "Internal error");
                        ("reason", lastError r)]) 500
      else Response_json (JSObject [("message", JSString "Not found")]) 404
  end.

(** [this.#handler]: how it ends (the response its promise resolves to, or
    what it rejects with), the world afterwards and the trace. *)
Definition router_handler (router : ProtocolRouter) (request : Request)
    (w : World) : Completion Response * World * list Event :=
  let r := scan (contextBuilder router) request (routes router) w in
  (conclude r, world r, trace r).

(** ** Binding to a transport *)

(** The transport as far as the router is concerned: the schemes for which
    [protocol.handle(scheme, this.#handler.bind(this))] was called, in the
    order of the calls.  Whether the host accepts a call is its own
    affair and not part of the embedding. *)
Definition Protocol : Type := list string.

Definition noHandlersError : JSValue :=
  JSError "Error"
    "No handlers have been registered. Please add at least one handler before calling this method.".

(** [register(protocol, scheme)]: what it returns ([None] is [undefined])
    and the transport afterwards. *)
Definition register (router : ProtocolRouter) (protocol : Protocol)
    (scheme : string) : option JSValue * Protocol :=
  if (length (routes router) =? 0)%nat then (Some noHandlersError, protocol)
  else (None, protocol ++ [scheme]).

End Router.

(** ** The registration surface *)

Section Surface.

Context {World : Type}.

Definition get := @methodFn World GET.
Definition post := @methodFn World POST.
Definition put := @methodFn World PUT.
Definition delete := @methodFn World DELETE.
Definition patch := @methodFn World PATCH.
Definition head := @methodFn World HEAD.
Definition options := @methodFn World OPTIONS.
Definition trace_ := @methodFn World TRACE.
Definition connect := @methodFn World CONNECT.

(** Every operation that registers a handler. *)
Definition registrationOps :
    list (string -> @ProtocolHandler World -> ProtocolRouter -> ProtocolRouter) :=
  [get; post; put; delete; patch; head; options; trace_; connect; on].

(** The key each operation registers under. *)
Definition registrationKeys :
    list ((string -> @ProtocolHandler World -> ProtocolRouter -> ProtocolRouter)
          * MethodKey) :=
  [(get, Method GET); (post, Method POST); (put, Method PUT);
   (delete, Method DELETE); (patch, Method PATCH); (head, Method HEAD);
   (options, Method OPTIONS); (trace_, Method TRACE); (connect, Method CONNECT);
   (on, Wildcard)].

(** Route-table invariant: no stored handler list is empty. *)
Definition nonEmptyLists (r : @Routes World) : Prop :=
  Forall (fun bucket => Forall (fun entry => snd entry <> []) (snd bucket)) r.

End Surface.

(** ** Path matching, stated

    When a pattern fits the request's segments and what it binds, as
    predicates that do not walk the segments the way the loop does. *)

(** The percent-decoded segment exists. *)
Definition decodes (pathPart : string) : bool :=
  match decodeURIComponent pathPart with
  | Normal _ => true
  | Throw _ => false
  end.

(** A pattern segment fits a request segment: a [:name] segment needs a
    segment that decodes, any other segment needs an equal one. *)
Definition segmentFits (pair : string * string) : bool :=
  let '(routePart, pathPart) := pair in
  if startsWithColon routePart then decodes pathPart
  else String.eqb routePart pathPart.

Definition patternFits (path : string) (pathParts : list string) : bool :=
  Nat.eqb (length (split path)) (length pathParts)
  && forallb segmentFits (combine (split path) pathParts).

(** The first pair of segments, from the left, that does not fit. *)
Definition firstMisfit (pairs : list (string * string)) : option (string * string) :=
  find (fun pair => negb (segmentFits pair)) pairs.

(** One pattern segment against one request segment in the words of the
    specification: the pattern segment starts with [:] or the two are
    equal. *)
Definition segmentFits_spec (pair : string * string) : bool :=
  let '(routePart, pathPart) := pair in
  startsWithColon routePart || String.eqb routePart pathPart.

Definition patternFits_spec (path : string) (pathParts : list string) : bool :=
  Nat.eqb (length (split path)) (length pathParts)
  && forallb segmentFits_spec (combine (split path) pathParts).

(** The bindings of a pattern, in segment order: the name after [:] with
    the decoded request segment. *)
Fixpoint bindings (pairs : list (string * string)) : list (string * string) :=
  match pairs with
  | [] => []
  | (routePart, pathPart) :: rest =>
      if startsWithColon routePart then
        match decodeURIComponent pathPart with
        | Normal value => (slice1 routePart, value) :: bindings rest
        | Throw _ => bindings rest
        end
      else bindings rest
  end.

(** Writing bindings into [params] one after the other. *)
Definition bindAll (bs : list (string * string)) (params : Params) : Params :=
  fold_left (fun ps b => setParam (fst b) (snd b) ps) bs params.

Definition paramsOf (path : string) (pathParts : list string) : Params :=
  bindAll (bindings (combine (split path) pathParts)) ∅.

(** * Reading a trace *)

Section TraceReading.

Context {World : Type}.

Implicit Types (ev : @Event World) (evs : list (@Event World)).

Definition errorOf ev : option JSValue :=
  match ev with
  | ErrorRecorded error => Some error
  | _ => None
  end.

(** The values assigned to [lastError], oldest first. *)
Definition recordedErrors evs : list JSValue := omap errorOf evs.

Definition handlerOf ev : option (@ProtocolHandler World) :=
  match ev with
  | HandlerCalled handler _ _ _ _ => Some handler
  | _ => None
  end.

(** The handlers that were invoked, in order. *)
Definition handlersInvoked evs : list (@ProtocolHandler World) := omap handlerOf evs.

Definition builtOf ev : option (Completion JSValue) :=
  match ev with
  | BuilderCalled _ result => Some result
  | _ => None
  end.

(** The results of the context builder's invocations, in order. *)
Definition builderResults evs : list (Completion JSValue) := omap builtOf evs.

(** The response a handler returned. *)
Definition handlerResponse ev : option Response :=
  match ev with
  | HandlerCalled _ _ _ _ (Normal response) => Some response
  | _ => None
  end.

(** The response the context builder threw. *)
Definition shortCircuit ev : option Response :=
  match ev with
  | BuilderCalled _ (Throw error) => instanceofResponse error
  | _ => None
  end.

(** No handler returned a response and the context builder threw none: the
    loops ran to their end. *)
Definition exhausted evs : Prop :=
  Forall (fun ev => handlerResponse ev = None /\ shortCircuit ev = None) evs.

(** [lastError] is the value recorded last, or what it was before. *)
Definition tracksLastError (err : JSValue) (r : @Run World) : Prop :=
  lastError r = default err (last (recordedErrors (trace r))).

(** A run returns exactly when its trace ends in a response. *)
Definition returnsLast (r : @Run World) : Prop :=
  match returned r with
  | Some response =>
      exists pre ev, trace r = pre ++ [ev] /\ exhausted pre
        /\ (handlerResponse ev = Some response /\ shortCircuit ev = None
            \/ handlerResponse ev = None /\ shortCircuit ev = Some response)
  | None => exhausted (trace r)
  end.

(** The patterns a request is tried against, in the order of the scan:
    those of the wildcard bucket and of the bucket of the request's
    method, as the table enumerates them. *)
Definition candidates (requestMethod : string) (table : @Routes World)
  : @RouteMap World :=
  flat_map (fun bucket => if skipped (fst bucket) requestMethod then []
                          else snd bucket) table.

End TraceReading.

(** * Examples used below *)

Module Examples.

(** The world of the examples counts the invocations of the context
    builder. *)
Definition W : Type := nat.

Definition ok (data : JSValue) : Response := {| status := 200; body := data |}.

Definition unauthorized : Response :=
  {| status := 401; body := JSObject [("message", JSString "invalid request")] |}.

Definition boom : JSValue := JSError "Error" "boom".

(** A handler with [n] declared parameters that throws [error]. *)
Definition failing (n : nat) (error : JSValue) : @ProtocolHandler W :=
  {| handler_length := n;
     call := fun _ _ _ w => (Throw error, w);
     writes := fun _ params _ _ => params |}.

(** A handler that sets [params.id] to [value] and then throws [error]. *)
Definition scribbling (value : string) (error : JSValue) : @ProtocolHandler W :=
  {| handler_length := 1;
     call := fun _ _ _ w => (Throw error, w);
     writes := fun _ params _ _ => <[ "id" := value ]> params |}.

(** A handler with [n] declared parameters that answers with [params.id]
    and the context it was given. *)
Definition answering (n : nat) : @ProtocolHandler W :=
  {| handler_length := n;
     call := fun _ params context w =>
       (Normal (ok (JSObject
          [("id", match params !! "id" with
                  | Some v => JSString v
                  | None => JSUndefined
                  end);
           ("context", default JSUndefined context)])), w);
     writes := fun _ params _ _ => params |}.

(** A context builder that returns the number of its invocation. *)
Definition counting : @ContextBuilder W :=
  fun _ w => (Normal (JSNumber (Z.of_nat (S w))), S w).

(** A context builder that always throws an error. *)
Definition refusing : @ContextBuilder W :=
  fun _ w => (Throw (JSError "Error" "Authorization header missing"), S w).

(** A context builder that returns a context once and afterwards throws a
    401 response. *)
Definition expiring : @ContextBuilder W :=
  fun _ w => (match w with
              | O => Normal (JSString "session")
              | S _ => Throw (valueOfResponse unauthorized)
              end, S w).

Definition request (m h p : string) : Request :=
  {| url := {| host := h; pathname := p |}; method := m |}.

End Examples.

(** * Measures of strings and tables *)

(** The string holds a [%]. *)
Fixpoint hasPercent (s : string) : bool :=
  match s with
  | EmptyString => false
  | String c rest => Ascii.eqb c percent || hasPercent rest
  end.


Section TableMeasures.

Context {World : Type}.

(** The pattern of the entry matches the request's segments. *)
Definition fits (pathParts : list string)
    (entry : string * list (@ProtocolHandler World)) : bool :=
  match matchRoute (fst entry) pathParts with
  | Normal (Some _) => true
  | _ => false
  end.

(** Matching the pattern of the entry throws. *)
Definition throwsOn (pathParts : list string)
    (entry : string * list (@ProtocolHandler World)) : bool :=
  match matchRoute (fst entry) pathParts with
  | Throw _ => true
  | _ => false
  end.

(** The handler never writes to [params]. *)
Definition quiet (handler : @ProtocolHandler World) : Prop :=
  forall request params context w, writes handler request params context w = params.

(** The handlers of the candidates whose pattern matches, in the order of
    the scan. *)
Definition matchingHandlers (pathParts : list string) (cands : @RouteMap World)
  : list (@ProtocolHandler World) :=
  flat_map snd (List.filter (fits pathParts) cands).

(** No method key twice in the table, no pattern twice in a bucket. *)
Definition wellKeyed (r : @Routes World) : Prop :=
  List.NoDup (map fst r) /\ Forall (fun bucket => List.NoDup (map fst (snd bucket))) r.



End TableMeasures.

(** * The provider

    The class [ProtocolProvider]: pairs of a custom scheme and a function
    that builds the router for it, bound to every session the host
    creates. *)

(** Electron's [CustomScheme]: the scheme name and its privileges. *)
Record CustomScheme : Type := mkCustomScheme {
  scheme : string;
  privileges : option JSValue
}.

Module Provider.

Section Provider.

Context {World : Type}.

(** An element of [#schemeRouters].  [router] is a closure: calling it may
    touch the world. *)
Record SchemeRouter : Type := mkSchemeRouter {
  customScheme : CustomScheme;
  router : World -> @ProtocolRouter World * World
}.

(** The provider and what it has told the host so far: the array
    [#schemeRouters], the arguments of its calls of
    [protocol.registerSchemesAsPrivileged], and the number of listeners of
    [session-created] it has installed.  A listener holds the provider,
    not a copy of the array. *)
Record ProtocolProvider : Type := mkProvider {
  schemeRouters : list SchemeRouter;
  privileged : list (list CustomScheme);
  listeners : nat
}.

(** The getter [customScheme]. *)
Definition customSchemes (p : ProtocolProvider) : list CustomScheme :=
  map customScheme (schemeRouters p).

(** [apply()]: the schemes of the array as it is now go to
    [registerSchemesAsPrivileged], and one more listener is installed. *)
Definition apply (p : ProtocolProvider) : ProtocolProvider :=
  {| schemeRouters := schemeRouters p;
     privileged := privileged p ++ [customSchemes p];
     listeners := S (listeners p) |}.

(** The body of a listener, on the array as it is when the session is
    created: for every element, in order,
    [schemeRouter.router().register(session.protocol, scheme)]; what
    [register] returns is dropped.  The result is the session's transport
    and the world afterwards, and the routers that were built (ghost
    data). *)
Fixpoint forEachSchemeRouter (rs : list SchemeRouter) (protocol : Protocol) (w : World)
  : Protocol * World * list (CustomScheme * @ProtocolRouter World) :=
  match rs with
  | [] => (protocol, w, [])
  | schemeRouter :: rest =>
      let '(r, w1) := router schemeRouter w in
      let '(_, protocol1) :=
        register r protocol (scheme (customScheme schemeRouter)) in
      let '(protocol2, w2, built) := forEachSchemeRouter rest protocol1 w1 in
      (protocol2, w2, (customScheme schemeRouter, r) :: built)
  end.

(** The host creates a session: every installed listener runs, one after
    the other. *)
Fixpoint runListeners (n : nat) (p : ProtocolProvider) (protocol : Protocol) (w : World)
  : Protocol * World * list (CustomScheme * @ProtocolRouter World) :=
  match n with
  | O => (protocol, w, [])
  | S n' =>
      let '(protocol1, w1, built1) := forEachSchemeRouter (schemeRouters p) protocol w in
      let '(protocol2, w2, built2) := runListeners n' p protocol1 w1 in
      (protocol2, w2, built1 ++ built2)
  end.

Definition sessionCreated (p : ProtocolProvider) (protocol : Protocol) (w : World)
  : Protocol * World * list (CustomScheme * @ProtocolRouter World) :=
  runListeners (listeners p) p protocol w.



(** The private constructor, reached through the static [register]. *)
Definition create (cs : CustomScheme)
    (f : World -> @ProtocolRouter World * World) : ProtocolProvider :=
  {| schemeRouters := [ {| customScheme := cs; router := f |} ];
     privileged := [];
     listeners := 0 |}.

(** The instance method [register]. *)
Definition register (cs : CustomScheme)
    (f : World -> @ProtocolRouter World * World) (p : ProtocolProvider)
  : ProtocolProvider :=
  {| schemeRouters := schemeRouters p ++ [ {| customScheme := cs; router := f |} ];
     privileged := privileged p;
     listeners := listeners p |}.

End Provider.

End Provider.

(** * Facts about the route table *)

Section RouteTableFacts.

Context {World : Type}.

Implicit Types (r : @Routes World) (m : @RouteMap World)
  (h : @ProtocolHandler World) (hs : list (@ProtocolHandler World))
  (k : MethodKey) (path : string).

Lemma MethodKey_eqb_eq k k' : MethodKey_eqb k k' = true <-> k = k'.
Proof.
  split.
  - destruct k as [|a], k' as [|b]; try destruct a; try destruct b;
      vm_compute; intros E; try reflexivity; discriminate E.
  - intros ->. destruct k' as [|b]; [|destruct b]; reflexivity.
Qed.

Lemma MethodKey_eqb_neq k k' : MethodKey_eqb k k' = false <-> k <> k'.
Proof.
  rewrite <- MethodKey_eqb_eq. destruct (MethodKey_eqb k k'); split; congruence.
Qed.

Lemma Map_get_set_same path hs m : Map_get path (Map_set path hs m) = Some hs.
Proof.
  induction m as [|[p old] rest IH]; simpl.
  - now rewrite String.eqb_refl.
  - destruct (String.eqb p path) eqn:E; simpl; rewrite E; auto.
Qed.

Lemma Map_get_set_other path path' hs m :
  path <> path' -> Map_get path' (Map_set path hs m) = Map_get path' m.
Proof.
  intros Hne. induction m as [|[p old] rest IH]; simpl.
  - apply String.eqb_neq in Hne. now rewrite Hne.
  - destruct (String.eqb p path) eqn:E; simpl.
    + apply String.eqb_eq in E; subst p.
      apply String.eqb_neq in Hne. now rewrite Hne.
    + destruct (String.eqb p path'); auto.
Qed.

Lemma routes_get_set_same k m r : routes_get k (routes_set k m r) = Some m.
Proof.
  induction r as [|[k0 old] rest IH]; simpl.
  - now rewrite (proj2 (MethodKey_eqb_eq k k) eq_refl).
  - destruct (MethodKey_eqb k0 k) eqn:E; simpl; rewrite E; auto.
Qed.

Lemma routes_get_set_other k k' m r :
  k <> k' -> routes_get k' (routes_set k m r) = routes_get k' r.
Proof.
  intros Hne. induction r as [|[k0 old] rest IH]; simpl.
  - apply MethodKey_eqb_neq in Hne. now rewrite Hne.
  - destruct (MethodKey_eqb k0 k) eqn:E; simpl.
    + apply MethodKey_eqb_eq in E; subst k0.
      apply MethodKey_eqb_neq in Hne. now rewrite Hne.
    + destruct (MethodKey_eqb k0 k'); auto.
Qed.

Lemma routes_set_not_nil k m r : routes_set k m r <> [].
Proof.
  destruct r as [|[k0 old] rest]; simpl; [discriminate|].
  destruct (MethodKey_eqb k0 k); discriminate.
Qed.

Lemma add_routes_not_nil k path h r : add_routes k path h r <> [].
Proof.
  unfold add_routes.
  destruct (routes_get k r) as [m|]; [destruct (Map_get path m)|];
    apply routes_set_not_nil.
Qed.

(** What is stored under the key that [#add] was called with: the former
    list (the empty one when there was none) with the handler at its end. *)
Lemma handlersAt_add_same k path h r :
  handlersAt k path (add_routes k path h r)
  = Some (default [] (handlersAt k path r) ++ [h]).
Proof.
  unfold handlersAt, add_routes.
  destruct (routes_get k r) as [m|] eqn:Hk.
  - destruct (Map_get path m) as [old|] eqn:Hp;
      rewrite routes_get_set_same, Map_get_set_same; reflexivity.
  - rewrite routes_get_set_same. simpl. now rewrite String.eqb_refl.
Qed.

(** Every other key keeps what it had. *)
Lemma handlersAt_add_other k path h k' path' r :
  (k, path) <> (k', path') ->
  handlersAt k' path' (add_routes k path h r) = handlersAt k' path' r.
Proof.
  intros Hne. unfold handlersAt, add_routes.
  destruct (MethodKey_eqb k k') eqn:Ek.
  - apply MethodKey_eqb_eq in Ek; subst k'.
    assert (path <> path') as Hp by congruence.
    destruct (routes_get k r) as [m|] eqn:Hk.
    + destruct (Map_get path m) as [old|];
        rewrite routes_get_set_same, Map_get_set_other; auto.
    + rewrite routes_get_set_same. simpl.
      apply String.eqb_neq in Hp. now rewrite Hp.
  - apply MethodKey_eqb_neq in Ek.
    destruct (routes_get k r) as [m|]; [destruct (Map_get path m)|];
      rewrite routes_get_set_other; auto.
Qed.

Lemma Map_get_In path m hs : Map_get path m = Some hs -> In (path, hs) m.
Proof.
  induction m as [|[p old] rest IH]; simpl; [discriminate|].
  destruct (String.eqb p path) eqn:E.
  - apply String.eqb_eq in E. intros [= ->]. left. congruence.
  - auto.
Qed.

Lemma routes_get_In k r m : routes_get k r = Some m -> In (k, m) r.
Proof.
  induction r as [|[k0 old] rest IH]; simpl; [discriminate|].
  destruct (MethodKey_eqb k0 k) eqn:E.
  - apply MethodKey_eqb_eq in E. intros [= ->]. left. congruence.
  - auto.
Qed.

Lemma Map_set_nonEmpty path hs m :
  hs <> [] ->
  Forall (fun entry => snd entry <> []) m ->
  Forall (fun entry => snd entry <> []) (Map_set path hs m).
Proof.
  intros Hhs. induction 1 as [|[p old] rest Hold Hrest IH]; simpl.
  - constructor; auto.
  - destruct (String.eqb p path); constructor; auto.
Qed.

Lemma routes_set_nonEmpty k m r :
  Forall (fun entry => snd entry <> []) m ->
  nonEmptyLists r -> nonEmptyLists (routes_set k m r).
Proof.
  intros Hm. unfold nonEmptyLists.
  induction 1 as [|[k0 old] rest Hold Hrest IH]; simpl.
  - constructor; auto.
  - destruct (MethodKey_eqb k0 k); constructor; auto.
Qed.

Lemma add_routes_nonEmpty k path h r :
  nonEmptyLists r -> nonEmptyLists (add_routes k path h r).
Proof.
  intros Hr. unfold add_routes.
  destruct (routes_get k r) as [m|] eqn:Hk.
  - assert (Forall (fun entry => snd entry <> []) m) as Hm.
    { apply routes_get_In in Hk. unfold nonEmptyLists in Hr.
      rewrite List.Forall_forall in Hr. apply (Hr _ Hk). }
    destruct (Map_get path m) as [old|];
      apply routes_set_nonEmpty; auto; apply Map_set_nonEmpty; auto;
      try (destruct old; discriminate); try discriminate.
  - apply routes_set_nonEmpty; auto. simpl. constructor; [discriminate|constructor].
Qed.

Lemma nonEmptyLists_handlersAt r k path hs :
  nonEmptyLists r -> handlersAt k path r = Some hs -> hs <> [].
Proof.
  unfold handlersAt, nonEmptyLists. intros Hr.
  destruct (routes_get k r) as [m|] eqn:Hk; [|discriminate].
  intros Hp. apply routes_get_In in Hk. apply Map_get_In in Hp.
  rewrite List.Forall_forall in Hr. specialize (Hr _ Hk). simpl in Hr.
  rewrite List.Forall_forall in Hr. apply (Hr _ Hp).
Qed.

Lemma registrationOps_add op :
  In op (@registrationOps World) -> exists k, op = add k.
Proof.
  unfold registrationOps. simpl.
  intros [<-|[<-|[<-|[<-|[<-|[<-|[<-|[<-|[<-|[<-|[]]]]]]]]]]];
    first [ now exists Wildcard | eexists (Method _); reflexivity ].
Qed.

End RouteTableFacts.

(** * Facts about path matching *)

Section MatchingFacts.

Lemma matchParts_spec pairs (params q : Params) :
  matchParts pairs params = Normal (Some q)
  <-> forallb segmentFits pairs = true /\ q = bindAll (bindings pairs) params.
Proof.
  revert params. induction pairs as [|[routePart pathPart] rest IH]; intros params; simpl.
  - split; [intros [= <-]; auto | intros [_ ->]; reflexivity].
  - unfold decodes. destruct (startsWithColon routePart).
    + destruct (decodeURIComponent pathPart) as [value|error]; simpl.
      * apply IH.
      * split; [discriminate | intros [[=] _]].
    + destruct (String.eqb routePart pathPart); simpl.
      * apply IH.
      * split; [discriminate | intros [[=] _]].
Qed.

Lemma matchRoute_spec path pathParts (q : Params) :
  matchRoute path pathParts = Normal (Some q)
  <-> patternFits path pathParts = true /\ q = paramsOf path pathParts.
Proof.
  unfold matchRoute, patternFits, paramsOf.
  destruct (Nat.eqb (length (split path)) (length pathParts)); simpl.
  - apply matchParts_spec.
  - split; [discriminate | intros [[=] _]].
Qed.

Lemma matchRoute_length path pathParts :
  length (split path) <> length pathParts ->
  matchRoute path pathParts = Normal None.
Proof.
  intros Hne. unfold matchRoute.
  apply Nat.eqb_neq in Hne. now rewrite Hne.
Qed.

Lemma bindAll_lookup_fresh bs (params : Params) name :
  ~ In name (map fst bs) -> bindAll bs params !! name = params !! name.
Proof.
  revert params. induction bs as [|[n v] rest IH]; intros params Hfresh; simpl in *.
  - reflexivity.
  - rewrite IH by tauto. unfold setParam.
    destruct (String.eqb n "__proto__"); [reflexivity|].
    apply lookup_insert_ne. tauto.
Qed.

(** A name bound once, other than [__proto__], maps to its value. *)
Lemma bindAll_lookup_unique bs (params : Params) name value :
  List.NoDup (map fst bs) -> In (name, value) bs -> name <> "__proto__" ->
  bindAll bs params !! name = Some value.
Proof.
  revert params. induction bs as [|[n v] rest IH]; intros params Hnd Hin Hname; simpl in *.
  - contradiction.
  - apply NoDup_cons_iff in Hnd as [Hfresh Hnd].
    destruct Hin as [[= -> ->]|Hin].
    + rewrite bindAll_lookup_fresh by assumption.
      unfold setParam. apply String.eqb_neq in Hname. rewrite Hname.
      apply lookup_insert_eq.
    + apply IH; auto.
Qed.

(** Whatever [params] holds was bound by some segment. *)
Lemma bindAll_lookup_In bs (params : Params) name value :
  bindAll bs params !! name = Some value ->
  params !! name = Some value \/ In (name, value) bs.
Proof.
  revert params. induction bs as [|[n v] rest IH]; intros params; simpl.
  - auto.
  - intros H. apply IH in H as [H|H]; [|auto].
    unfold setParam in H. destruct (String.eqb n "__proto__"); [auto|].
    destruct (decide (n = name)) as [->|Hne].
    + rewrite lookup_insert_eq in H. injection H as ->. auto.
    + rewrite lookup_insert_ne in H by assumption. auto.
Qed.

Lemma bindings_In pairs name value :
  In (name, value) (bindings pairs)
  <-> exists routePart pathPart,
        In (routePart, pathPart) pairs /\ startsWithColon routePart = true
        /\ name = slice1 routePart /\ decodeURIComponent pathPart = Normal value.
Proof.
  induction pairs as [|[routePart pathPart] rest IH]; simpl.
  - split; [contradiction | intros (? & ? & [] & _)].
  - destruct (startsWithColon routePart) eqn:Hc.
    + destruct (decodeURIComponent pathPart) as [v|e] eqn:Hd; simpl.
      * rewrite IH. split.
        -- intros [[= <- <-]|(rp & pp & Hin & H)].
           ++ exists routePart, pathPart. auto.
           ++ exists rp, pp. tauto.
        -- intros (rp & pp & [[= <- <-]|Hin] & Hs & -> & Hv).
           ++ left. congruence.
           ++ right. exists rp, pp. auto.
      * rewrite IH. split.
        -- intros (rp & pp & Hin & H). exists rp, pp. tauto.
        -- intros (rp & pp & [[= <- <-]|Hin] & Hs & -> & Hv); [congruence|].
           exists rp, pp. auto.
    + rewrite IH. split.
      * intros (rp & pp & Hin & H). exists rp, pp. tauto.
      * intros (rp & pp & [[= <- <-]|Hin] & Hs & -> & Hv); [congruence|].
        exists rp, pp. auto.
Qed.

Lemma consChar_throw c r error : consChar c r = Throw error -> r = Throw error.
Proof. destruct r; simpl; congruence. Qed.

Lemma decodeFrom_throw n :
  forall s pending lo hi error,
    (String.length s <= n)%nat ->
    decodeFrom pending lo hi s = Throw error -> error = URIError.
Proof.
  induction n as [|n IH]; intros s pending lo hi error Hlen H.
  - destruct s; [|simpl in Hlen; lia].
    destruct pending; simpl in H; congruence.
  - destruct pending as [|pending].
    + destruct s as [|c rest]; simpl in H; [discriminate H|].
      destruct (Ascii.eqb c percent).
      * destruct rest as [|a [|b rest']]; simpl in H;
          try (injection H as <-; reflexivity).
        destruct (octet a b) as [o|]; [|injection H as <-; reflexivity].
        destruct (o <? 128)%nat.
        -- apply consChar_throw in H. eapply IH; [|exact H]. simpl in Hlen. lia.
        -- destruct (leadOctet o) as [[[k lo'] hi']|]; [|injection H as <-; reflexivity].
           apply consChar_throw in H. eapply IH; [|exact H]. simpl in Hlen. lia.
      * apply consChar_throw in H. eapply IH; [|exact H]. simpl in Hlen. lia.
    + destruct s as [|c [|a [|b rest']]]; simpl in H;
        try (injection H as <-; reflexivity).
      destruct (Ascii.eqb c percent); [|injection H as <-; reflexivity].
      destruct (octet a b) as [o|]; [|injection H as <-; reflexivity].
      destruct (inRange lo hi o); [|injection H as <-; reflexivity].
      apply consChar_throw in H. eapply IH; [|exact H]. simpl in Hlen. lia.
Qed.

Lemma decodeURIComponent_throw s error :
  decodeURIComponent s = Throw error -> error = URIError.
Proof.
  unfold decodeURIComponent. intros H.
  eapply (decodeFrom_throw (String.length s)); [|exact H]. lia.
Qed.

(** The walk stops at the first pair that does not fit: with an exception
    when that is a [:name] segment (its request segment does not decode),
    without a match when it is any other segment. *)
Lemma matchParts_firstMisfit pairs (params : Params) :
  matchParts pairs params
  = match firstMisfit pairs with
    | None => Normal (Some (bindAll (bindings pairs) params))
    | Some (routePart, _) =>
        if startsWithColon routePart then Throw URIError else Normal None
    end.
Proof.
  unfold firstMisfit. revert params.
  induction pairs as [|[routePart pathPart] rest IH]; intros params; simpl.
  - reflexivity.
  - unfold decodes. destruct (startsWithColon routePart) eqn:Hc.
    + destruct (decodeURIComponent pathPart) as [value|error] eqn:Hd; simpl.
      * apply IH.
      * rewrite Hc. now rewrite (decodeURIComponent_throw _ _ Hd).
    + destruct (String.eqb routePart pathPart); simpl.
      * apply IH.
      * now rewrite Hc.
Qed.

Lemma matchRoute_firstMisfit path pathParts :
  length (split path) = length pathParts ->
  matchRoute path pathParts
  = match firstMisfit (combine (split path) pathParts) with
    | None => Normal (Some (paramsOf path pathParts))
    | Some (routePart, _) =>
        if startsWithColon routePart then Throw URIError else Normal None
    end.
Proof.
  intros Hlen. unfold matchRoute, paramsOf.
  apply Nat.eqb_eq in Hlen. rewrite Hlen. simpl. apply matchParts_firstMisfit.
Qed.

End MatchingFacts.

(** * Facts about the loops *)

Section LoopFacts.

Context {World : Type}.

Implicit Types (r : @Run World) (ev : @Event World) (evs pre post : list (@Event World)).

Lemma emit_trace evs r : trace (emit evs r) = evs ++ trace r.
Proof. reflexivity. Qed.

Lemma app_cons_split {A : Type} (pre : list A) (x : A) (post t1 t2 : list A) :
  pre ++ x :: post = t1 ++ t2 ->
  (exists l, t1 = pre ++ x :: l /\ post = l ++ t2)
  \/ (exists l, pre = t1 ++ l /\ t2 = l ++ x :: post).
Proof.
  revert pre. induction t1 as [|y t1 IH]; intros pre H; simpl in *.
  - right. exists pre. auto.
  - destruct pre as [|z pre]; simpl in *.
    + injection H as -> ->. left. exists t1. auto.
    + injection H as -> H. apply IH in H as [(l & -> & ->)|(l & -> & ->)].
      * left. exists l. auto.
      * right. exists l. auto.
Qed.

Section ForEach.

Context {A : Type} (body : A -> JSValue -> World -> @Run World).

(** A property of an event in its place: what precedes it, what follows
    it, and what the run returned. *)
Variable Phi : list (@Event World) -> @Event World -> list (@Event World)
               -> option Response -> Prop.

Hypothesis Phi_earlier : forall t pre ev post ret,
  Phi pre ev post ret -> Phi (t ++ pre) ev post ret.
Hypothesis Phi_later : forall pre ev post t ret,
  Phi pre ev post None -> Phi pre ev (post ++ t) ret.

Lemma forEach_positional items :
  (forall x err w pre ev post, In x items ->
     trace (body x err w) = pre ++ ev :: post ->
     Phi pre ev post (returned (body x err w))) ->
  forall err w pre ev post,
    trace (forEach body items err w) = pre ++ ev :: post ->
    Phi pre ev post (returned (forEach body items err w)).
Proof.
  induction items as [|x rest IH]; intros Hbody err w pre ev post; simpl.
  - intros H. destruct pre; discriminate H.
  - destruct (returned (body x err w)) as [response|] eqn:Hret.
    + intros H. rewrite Hret. rewrite <- Hret. apply Hbody; auto. now left.
    + rewrite emit_trace. intros H. symmetry in H.
      apply app_cons_split in H as [(l & Hl & ->)|(l & -> & Hl)].
      * apply Phi_later. rewrite <- Hret. apply Hbody; auto. now left.
      * apply Phi_earlier. apply IH; auto.
        intros; apply Hbody; auto. now right.
Qed.

End ForEach.

Lemma forEach_lastError {A : Type} (body : A -> JSValue -> World -> @Run World) items :
  (forall x err w, tracksLastError err (body x err w)) ->
  forall err w, tracksLastError err (forEach body items err w).
Proof.
  intros Hbody. induction items as [|x rest IH]; intros err w; simpl.
  - reflexivity.
  - destruct (returned (body x err w)) eqn:Hret; [apply Hbody|].
    unfold tracksLastError in *. simpl.
    unfold recordedErrors in *. rewrite omap_app, last_app, IH, Hbody.
    destruct (last (omap errorOf (trace (forEach body rest _ _)))); reflexivity.
Qed.

Lemma forEach_returnsLast {A : Type} (body : A -> JSValue -> World -> @Run World) items :
  (forall x err w, returnsLast (body x err w)) ->
  forall err w, returnsLast (forEach body items err w).
Proof.
  intros Hbody. induction items as [|x rest IH]; intros err w; simpl.
  - constructor.
  - pose proof (Hbody x err w) as Hx.
    destruct (returned (body x err w)) as [response|] eqn:Hret; [assumption|].
    unfold returnsLast in *. rewrite Hret in Hx. simpl.
    specialize (IH (lastError (body x err w)) (world (body x err w))).
    destruct (returned (forEach body rest _ _)) as [response|].
    + destruct IH as (pre & ev & -> & Hpre & Hev).
      exists (trace (body x err w) ++ pre), ev.
      rewrite app_assoc. split; [reflexivity|]. split; [|assumption].
      apply Forall_app; auto.
    + apply Forall_app; auto.
Qed.

End LoopFacts.

(** * Facts about the dispatcher *)

Section ScanFacts.

Context {World : Type}.

Variable builder : option (@ContextBuilder World).
Variable request : Request.

Implicit Types (handler : @ProtocolHandler World) (params : Params)
  (err : JSValue) (w : World) (table : @Routes World).

Ltac run_cases :=
  unfold attempt, invoke, done, continue;
  repeat match goal with
  | |- context [match ?x with Some _ => _ | None => _ end] =>
      is_var x; destruct x
  | |- context [match ?x with (_, _) => _ end] => destruct x
  | |- context [match ?x with Normal _ => _ | Throw _ => _ end] => destruct x
  | |- context [match instanceofResponse ?e with Some _ => _ | None => _ end] =>
      destruct (instanceofResponse e) eqn:?
  | |- context [if (?a <? ?b)%nat then _ else _] => destruct (a <? b)%nat eqn:?
  end; simpl.

Lemma attempt_lastError params handler err w :
  tracksLastError err (attempt builder request params handler err w).
Proof. unfold tracksLastError. run_cases; reflexivity. Qed.

Lemma tryHandlers_lastError handlers params err w :
  tracksLastError err (tryHandlers builder request handlers params err w).
Proof.
  revert params err w. induction handlers as [|handler rest IH]; intros params err w;
    cbn [tryHandlers].
  - reflexivity.
  - pose proof (attempt_lastError params handler err w) as Ha.
    destruct (returned (attempt builder request params handler err w)); [exact Ha|].
    unfold tracksLastError in *. rewrite emit_trace. cbn [lastError emit].
    unfold recordedErrors in *. rewrite omap_app, last_app, IH, Ha.
    destruct (last (omap errorOf (trace (tryHandlers builder request rest _ _ _))));
      reflexivity.
Qed.

Lemma tryPattern_lastError pathParts entry err w :
  tracksLastError err (tryPattern builder request pathParts entry err w).
Proof.
  unfold tryPattern. destruct entry as [path handlers].
  destruct (matchRoute path pathParts) as [[params|]|error]; try reflexivity.
  apply tryHandlers_lastError.
Qed.

Lemma tryBucket_lastError pathParts requestMethod bucket err w :
  tracksLastError err (tryBucket builder request pathParts requestMethod bucket err w).
Proof.
  unfold tryBucket. destruct bucket as [k entry].
  destruct (skipped k requestMethod); [reflexivity|].
  apply forEach_lastError. intros; apply tryPattern_lastError.
Qed.

(** After the scan [lastError] holds the error recorded last, [null] when
    none was. *)
Lemma scan_lastError table w :
  lastError (scan builder request table w)
  = default JSNull (last (recordedErrors (trace (scan builder request table w)))).
Proof.
  apply (forEach_lastError _ table). intros; apply tryBucket_lastError.
Qed.

Lemma attempt_returnsLast params handler err w :
  returnsLast (attempt builder request params handler err w).
Proof.
  unfold returnsLast, exhausted. run_cases;
    try (repeat constructor; simpl; auto; fail);
    match goal with
    | |- exists pre ev, [?a; ?b] = _ /\ _ => exists [a], b
    | |- exists pre ev, [?a] = _ /\ _ => exists [], a
    end;
    (split; [reflexivity|]; split;
     [ repeat constructor; simpl; auto
     | simpl; first [ left; split; [reflexivity|assumption || reflexivity]
                    | right; split; [reflexivity|assumption || reflexivity] ] ]).
Qed.

Lemma tryHandlers_returnsLast handlers params err w :
  returnsLast (tryHandlers builder request handlers params err w).
Proof.
  revert params err w. induction handlers as [|handler rest IH]; intros params err w;
    cbn [tryHandlers].
  - constructor.
  - pose proof (attempt_returnsLast params handler err w) as Hx.
    destruct (returned (attempt builder request params handler err w)) as [response|]
      eqn:Hret; [assumption|].
    unfold returnsLast in *. rewrite Hret in Hx. rewrite emit_trace. cbn [returned emit].
    specialize (IH (paramsAfter builder request params handler w)
                   (lastError (attempt builder request params handler err w))
                   (world (attempt builder request params handler err w))).
    destruct (returned (tryHandlers builder request rest _ _ _)) as [response|].
    + destruct IH as (pre & ev & -> & Hpre & Hev).
      exists (trace (attempt builder request params handler err w) ++ pre), ev.
      rewrite app_assoc. split; [reflexivity|]. split; [|assumption].
      apply Forall_app; auto.
    + apply Forall_app; auto.
Qed.

Lemma tryPattern_returnsLast pathParts entry err w :
  returnsLast (tryPattern builder request pathParts entry err w).
Proof.
  unfold tryPattern. destruct entry as [path handlers].
  destruct (matchRoute path pathParts) as [[params|]|error].
  - apply tryHandlers_returnsLast.
  - constructor.
  - repeat constructor.
Qed.

Lemma tryBucket_returnsLast pathParts requestMethod bucket err w :
  returnsLast (tryBucket builder request pathParts requestMethod bucket err w).
Proof.
  unfold tryBucket. destruct bucket as [k entry].
  destruct (skipped k requestMethod); [constructor|].
  apply forEach_returnsLast. intros; apply tryPattern_returnsLast.
Qed.

Lemma scan_returnsLast table w : returnsLast (scan builder request table w).
Proof.
  apply forEach_returnsLast. intros; apply tryBucket_returnsLast.
Qed.

(** The scan ends without a response exactly when no handler returned one
    and the context builder threw none. *)
Lemma scan_exhausted table w :
  returned (scan builder request table w) = None
  <-> exhausted (trace (scan builder request table w)).
Proof.
  pose proof (scan_returnsLast table w) as H. unfold returnsLast in H.
  destruct (returned (scan builder request table w)) as [response|].
  - split; [discriminate|]. intros Hex.
    destruct H as (pre & ev & Htr & _ & Hev). rewrite Htr in Hex.
    apply Forall_app in Hex as [_ Hex]. inversion Hex as [|? ? [H1 H2] _]; subst.
    destruct Hev as [[Hev _]|[_ Hev]]; congruence.
  - tauto.
Qed.

Section Positional.

Variable Phi : list (@Event World) -> @Event World -> list (@Event World)
               -> option Response -> Prop.

Hypothesis Phi_earlier : forall t pre ev post ret,
  Phi pre ev post ret -> Phi (t ++ pre) ev post ret.
Hypothesis Phi_later : forall pre ev post t ret,
  Phi pre ev post None -> Phi pre ev (post ++ t) ret.

(** A positional property that holds of every attempt of a handler list,
    on every [params] object that can reach it, holds of the walk through
    the list.  [Inv] is what is known of the object. *)
Lemma tryHandlers_positional (Inv : Params -> Prop) handlers :
  (forall handler params w, In handler handlers -> Inv params ->
     Inv (paramsAfter builder request params handler w)) ->
  (forall handler params err w pre ev post, In handler handlers -> Inv params ->
     trace (attempt builder request params handler err w) = pre ++ ev :: post ->
     Phi pre ev post (returned (attempt builder request params handler err w))) ->
  forall params err w pre ev post, Inv params ->
    trace (tryHandlers builder request handlers params err w) = pre ++ ev :: post ->
    Phi pre ev post (returned (tryHandlers builder request handlers params err w)).
Proof.
  induction handlers as [|handler rest IH]; intros Hinv Hbody params err w pre ev post Hp;
    cbn [tryHandlers].
  - intros H. destruct pre; discriminate H.
  - destruct (returned (attempt builder request params handler err w)) as [response|]
      eqn:Hret.
    + intros H. rewrite Hret. rewrite <- Hret. apply Hbody; auto. now left.
    + rewrite emit_trace. cbn [returned emit]. intros H. symmetry in H.
      apply app_cons_split in H as [(l & Hl & ->)|(l & -> & Hl)].
      * apply Phi_later. rewrite <- Hret. apply Hbody; auto. now left.
      * apply Phi_earlier. apply IH; auto.
        -- intros; apply Hinv; auto. now right.
        -- intros; eapply Hbody; eauto. now right.
        -- apply Hinv; auto. now left.
Qed.

(** A positional property that holds of an exception out of the matching
    and of the walk through the handlers of every matching pattern of an
    eligible bucket holds of the whole scan. *)
Lemma scan_positional table :
  (forall error, Phi [] (ErrorRecorded error) [] None) ->
  (forall k entry path handlers params err w pre ev post,
     In (k, entry) table ->
     skipped k (toUpperCase (method request)) = false ->
     In (path, handlers) entry ->
     matchRoute path (pathPartsOf request) = Normal (Some params) ->
     trace (tryHandlers builder request handlers params err w) = pre ++ ev :: post ->
     Phi pre ev post (returned (tryHandlers builder request handlers params err w))) ->
  forall w pre ev post,
    trace (scan builder request table w) = pre ++ ev :: post ->
    Phi pre ev post (returned (scan builder request table w)).
Proof.
  intros Herr Hwalk. unfold scan.
  apply forEach_positional; auto.
  intros [k entry] err w pre ev post Hk. unfold tryBucket.
  destruct (skipped k _) eqn:Hskip.
  { intros H; destruct pre; discriminate H. }
  apply forEach_positional; auto.
  clear err w pre ev post.
  intros [path handlers] err w pre ev post Hp. unfold tryPattern.
  destruct (matchRoute path _) as [[params|]|error] eqn:Hm.
  - eapply Hwalk; eauto.
  - intros H; destruct pre; discriminate H.
  - simpl. intros H. destruct pre as [|? [|? ?]]; try discriminate H.
    injection H as <- <-. apply Herr.
Qed.

(** The same, from the attempts, whatever the [params] object holds when
    an attempt is made. *)
Lemma scan_positional_attempts table :
  (forall error, Phi [] (ErrorRecorded error) [] None) ->
  (forall k entry path handlers handler matched params err w pre ev post,
     In (k, entry) table ->
     skipped k (toUpperCase (method request)) = false ->
     In (path, handlers) entry -> In handler handlers ->
     matchRoute path (pathPartsOf request) = Normal (Some matched) ->
     trace (attempt builder request params handler err w) = pre ++ ev :: post ->
     Phi pre ev post (returned (attempt builder request params handler err w))) ->
  forall w pre ev post,
    trace (scan builder request table w) = pre ++ ev :: post ->
    Phi pre ev post (returned (scan builder request table w)).
Proof.
  intros Herr Hattempt. apply scan_positional; [assumption|].
  intros k entry path handlers params err w pre ev post Hk Hs Hp Hm.
  apply (tryHandlers_positional (fun _ => True)); auto.
  intros; eapply Hattempt; eauto.
Qed.

End Positional.

End ScanFacts.

(** * The fallback sequence *)

Section Candidates.

Context {World : Type}.

Lemma emit_nil (r : @Run World) : emit [] r = r.
Proof. destruct r; reflexivity. Qed.

Lemma emit_emit (t1 t2 : list (@Event World)) r :
  emit t1 (emit t2 r) = emit (t1 ++ t2) r.
Proof. unfold emit; simpl. now rewrite app_assoc. Qed.

Lemma forEach_app {A : Type} (body : A -> JSValue -> World -> @Run World) xs ys err w :
  forEach body (xs ++ ys) err w
  = let r := forEach body xs err w in
    match returned r with
    | Some _ => r
    | None => emit (trace r) (forEach body ys (lastError r) (world r))
    end.
Proof.
  revert err w. induction xs as [|x xs IH]; intros err w; simpl.
  - now rewrite emit_nil.
  - destruct (returned (body x err w)) eqn:Hret; simpl.
    + now rewrite Hret.
    + rewrite IH. simpl.
      destruct (returned (forEach body xs _ _)); [reflexivity|].
      now rewrite emit_emit.
Qed.

(** The scan over the buckets is one loop over the candidates. *)
Lemma scan_candidates builder request (table : @Routes World) w :
  scan builder request table w
  = forEach (tryPattern builder request (pathPartsOf request))
      (candidates (toUpperCase (method request)) table) JSNull w.
Proof.
  unfold scan. generalize JSNull as err. revert w.
  induction table as [|[k entry] rest IH]; intros w err; simpl.
  - reflexivity.
  - rewrite forEach_app. unfold tryBucket at 1. simpl.
    destruct (skipped k _); simpl.
    + rewrite IH. now rewrite emit_nil.
    + destruct (returned (forEach _ entry err w)); [reflexivity|].
      now rewrite IH.
Qed.

Lemma candidates_In requestMethod (table : @Routes World) k entry e :
  In (k, entry) table -> skipped k requestMethod = false -> In e entry ->
  In e (candidates requestMethod table).
Proof.
  intros Hk Hs He. unfold candidates. apply in_flat_map.
  exists (k, entry). simpl. rewrite Hs. auto.
Qed.

End Candidates.

(** * Facts about the method test *)

Section SkippedFacts.

Lemma methodName_not_star m : String.eqb (methodName m) "*" = false.
Proof. destruct m; reflexivity. Qed.

Lemma skipped_false_iff k requestMethod :
  skipped k requestMethod = false <-> k = Wildcard \/ keyName k = requestMethod.
Proof.
  unfold skipped. destruct k as [|m]; simpl.
  - split; auto.
  - rewrite methodName_not_star. simpl.
    destruct (String.eqb (methodName m) requestMethod) eqn:E; simpl.
    + apply String.eqb_eq in E. split; auto.
    + apply String.eqb_neq in E. split; [discriminate|].
      intros [H|H]; [discriminate H | contradiction].
Qed.

End SkippedFacts.

(** * From the scan to the response *)

Section Outcome.

Context {World : Type}.

Lemma router_handler_scan (router : @ProtocolRouter World) request w response w' evs :
  router_handler router request w = (response, w', evs) ->
  let r := scan (contextBuilder router) request (routes router) w in
  response = conclude r /\ w' = world r /\ evs = trace r.
Proof. unfold router_handler. intros [= <- <- <-]. auto. Qed.

Lemma Response_json_notFound :
  Response_json (JSObject [("message", JSString "Not found")]) 404 = Normal notFound.
Proof. reflexivity. Qed.

Lemma Response_json_internalError error :
  Response_json
    (JSObject [("message", JSString "Internal error"); ("reason", error)]) 500
  = match stringifyThrows error with
    | Some thrown => Throw thrown
    | None => Normal (internalError error)
    end.
Proof.
  unfold Response_json. cbn [stringifyThrows].
  destruct (stringifyThrows error); reflexivity.
Qed.

Lemma last_Forall {A : Type} (P : A -> Prop) (l : list A) x :
  last l = Some x -> Forall P l -> P x.
Proof.
  intros Hl Hall. apply last_Some in Hl as [l' ->].
  apply Forall_app in Hall as [_ Hall]. now inversion Hall.
Qed.

End Outcome.

(** * Attempts, one handler at a time *)

Section AttemptFacts.

Context {World : Type}.

Implicit Types (handler h : @ProtocolHandler World) (params ps : Params)
  (err : JSValue) (w : World) (b : @ContextBuilder World).

Ltac attempt_cases :=
  unfold attempt, invoke, done, continue;
  repeat match goal with
  | |- context [match ?x with (_, _) => _ end] => destruct x
  | |- context [match ?x with Normal _ => _ | Throw _ => _ end] => destruct x
  | |- context [match instanceofResponse ?e with Some _ => _ | None => _ end] =>
      destruct (instanceofResponse e) eqn:?
  | |- context [if (?a <? ?b)%nat then _ else _] => destruct (a <? b)%nat eqn:?
  end; simpl.

(** Every handler invocation of an attempt is of its handler, with the
    request and the bindings of the matched pattern. *)
Lemma attempt_calls builder request params handler err w h rq ps ctx res :
  In (HandlerCalled h rq ps ctx res)
     (trace (attempt builder request params handler err w)) ->
  h = handler /\ rq = request /\ ps = params.
Proof.
  destruct builder as [b|]; attempt_cases; intros Hin;
    repeat (destruct Hin as [Hin|Hin]; [try discriminate Hin|]);
    try contradiction; injection Hin as <- <- <- _ _; auto.
Qed.

(** An attempt invokes its handler at most once and nothing else. *)
Lemma attempt_handlersInvoked builder request params handler err w :
  handlersInvoked (trace (attempt builder request params handler err w)) = []
  \/ handlersInvoked (trace (attempt builder request params handler err w)) = [handler].
Proof. destruct builder as [b|]; attempt_cases; auto. Qed.

(** With a context builder, an attempt invokes the builder exactly once. *)
Lemma attempt_builderResults b request params handler err w :
  length (builderResults (trace (attempt (Some b) request params handler err w))) = 1%nat.
Proof. attempt_cases; reflexivity. Qed.

Lemma attempt_no_builder request params handler err w :
  trace (attempt None request params handler err w)
  = HandlerCalled handler request params None
      (fst (call handler request params None w))
    :: match fst (call handler request params None w) with
       | Normal _ => []
       | Throw error => [ErrorRecorded error]
       end.
Proof.
  unfold attempt, invoke.
  destruct (call handler request params None w) as [[response|error] w1]; reflexivity.
Qed.

(** With a context builder, what precedes a handler invocation in an
    attempt is the builder invocation that decided its context. *)
Lemma attempt_context b request params handler err w pre h rq ps ctx res post :
  trace (attempt (Some b) request params handler err w)
  = pre ++ HandlerCalled h rq ps ctx res :: post ->
  exists built,
    pre = [BuilderCalled request built]
    /\ match ctx with
       | Some context => built = Normal context
       | None => exists error, built = Throw error
                   /\ instanceofResponse error = None
                   /\ (handler_length h < 2)%nat
       end.
Proof.
  attempt_cases; intros H;
    destruct pre as [|e1 [|e2 [|e3 pre]]]; simplify_eq/=;
    try match goal with
        | H : [] = ?p ++ _ :: _ |- _ => destruct p; discriminate H
        end;
    (eexists; split; [reflexivity|]); try reflexivity.
  all: eexists; split; [reflexivity|]; split; [assumption|now apply Nat.ltb_lt].
Qed.

(** An attempt that does not invoke its handler leaves [params] as it
    was. *)
Lemma paramsAfter_not_invoked builder request params handler err w :
  handlersInvoked (trace (attempt builder request params handler err w)) = [] ->
  paramsAfter builder request params handler w = params.
Proof.
  unfold paramsAfter. destruct builder as [b|]; attempt_cases;
    intros H; try discriminate H; reflexivity.
Qed.

Lemma paramsAfter_quiet builder request params handler w :
  quiet handler -> paramsAfter builder request params handler w = params.
Proof.
  intros Hq. unfold paramsAfter. destruct builder as [b|]; [|apply Hq].
  destruct (b request w) as [[context|error] w1]; [apply Hq|].
  destruct (instanceofResponse error); [reflexivity|].
  destruct (handler_length handler <? 2)%nat; [apply Hq|reflexivity].
Qed.


Lemma tryHandlers_sublist builder request handlers params err w :
  sublist (handlersInvoked (trace (tryHandlers builder request handlers params err w)))
          handlers.
Proof.
  revert params err w. induction handlers as [|handler rest IH]; intros params err w;
    cbn [tryHandlers].
  - constructor.
  - pose proof (attempt_handlersInvoked builder request params handler err w) as Hh.
    destruct (returned (attempt builder request params handler err w)).
    + destruct Hh as [-> | ->]; [apply sublist_nil_l|].
      apply sublist_skip, sublist_nil_l.
    + rewrite emit_trace. unfold handlersInvoked in *. rewrite omap_app.
      destruct Hh as [-> | ->]; simpl.
      * apply sublist_cons, IH.
      * apply sublist_skip, IH.
Qed.

Lemma tryHandlers_calls builder request handlers params err w h rq ps ctx res :
  In (HandlerCalled h rq ps ctx res)
     (trace (tryHandlers builder request handlers params err w)) ->
  In h handlers /\ rq = request.
Proof.
  revert params err w. induction handlers as [|handler rest IH]; intros params err w;
    cbn [tryHandlers].
  - contradiction.
  - destruct (returned (attempt builder request params handler err w)).
    + intros Hin. apply attempt_calls in Hin as (-> & -> & _). split; [now left|auto].
    + rewrite emit_trace, in_app_iff. intros [Hin|Hin].
      * apply attempt_calls in Hin as (-> & -> & _). split; [now left|auto].
      * apply IH in Hin as (? & ?). split; [now right|auto].
Qed.

(** When no handler of the list writes to [params], every one of them is
    given the object as the walk started with it. *)
Lemma tryHandlers_quiet_calls builder request handlers params err w h rq ps ctx res :
  Forall quiet handlers ->
  In (HandlerCalled h rq ps ctx res)
     (trace (tryHandlers builder request handlers params err w)) ->
  ps = params.
Proof.
  intros Hq. revert params err w.
  induction Hq as [|handler rest Hh Hrest IH]; intros params err w; cbn [tryHandlers].
  - contradiction.
  - destruct (returned (attempt builder request params handler err w)).
    + intros Hin. now apply attempt_calls in Hin as (_ & _ & ->).
    + rewrite emit_trace, in_app_iff. intros [Hin|Hin].
      * now apply attempt_calls in Hin as (_ & _ & ->).
      * apply IH in Hin. now rewrite (paramsAfter_quiet _ _ _ _ _ Hh) in Hin.
Qed.

(** The first handler that a walk invokes is given the object as the walk
    started with it. *)
Lemma tryHandlers_first_call builder request handlers params err w
    pre h rq ps ctx res post :
  trace (tryHandlers builder request handlers params err w)
  = pre ++ HandlerCalled h rq ps ctx res :: post ->
  handlersInvoked pre = [] ->
  ps = params.
Proof.
  revert params err w pre. induction handlers as [|handler rest IH];
    intros params err w pre; cbn [tryHandlers].
  - intros H. destruct pre; discriminate H.
  - destruct (returned (attempt builder request params handler err w)).
    + intros H _.
      assert (In (HandlerCalled h rq ps ctx res)
                 (trace (attempt builder request params handler err w))) as Hin
        by (rewrite H; apply in_elt).
      now apply attempt_calls in Hin as (_ & _ & ->).
    + rewrite emit_trace. intros H Hpre. symmetry in H.
      apply app_cons_split in H as [(l & Hl & _)|(l & -> & Hl)].
      * assert (In (HandlerCalled h rq ps ctx res)
                   (trace (attempt builder request params handler err w))) as Hin
          by (rewrite Hl; apply in_elt).
        now apply attempt_calls in Hin as (_ & _ & ->).
      * unfold handlersInvoked in Hpre. rewrite omap_app in Hpre.
        apply app_eq_nil in Hpre as [Ha Hl'].
        rewrite (paramsAfter_not_invoked _ _ _ _ _ _ Ha) in Hl.
        exact (IH _ _ _ _ Hl Hl').
Qed.

Lemma tryHandlers_builderResults b request handlers params err w :
  let r := tryHandlers (Some b) request handlers params err w in
  (length (builderResults (trace r)) <= length handlers)%nat
  /\ (returned r = None -> length (builderResults (trace r)) = length handlers).
Proof.
  revert params err w. induction handlers as [|handler rest IH]; intros params err w;
    cbv zeta; cbn [tryHandlers length].
  - simpl. auto.
  - pose proof (attempt_builderResults b request params handler err w) as H1.
    destruct (returned (attempt (Some b) request params handler err w)) eqn:Hret.
    + rewrite H1, Hret. split; [lia|discriminate].
    + rewrite emit_trace. cbn [returned emit]. unfold builderResults in *.
      rewrite omap_app, length_app, H1.
      specialize (IH (paramsAfter (Some b) request params handler w)
                     (lastError (attempt (Some b) request params handler err w))
                     (world (attempt (Some b) request params handler err w))).
      cbv zeta in IH. destruct IH as [IH1 IH2]. split; [lia|].
      intros Hnone. rewrite IH2 by assumption. reflexivity.
Qed.

End AttemptFacts.

(** * From one attempt to the next *)

Section FallbackFacts.

Context {World : Type}.

Implicit Types (handler h : @ProtocolHandler World) (params : Params)
  (err : JSValue) (w : World) (b : @ContextBuilder World).





Lemma invoke_throw request handler params context err w before error w1 :
  call handler request params context w = (Throw error, w1) ->
  invoke request handler params context err w before
  = continue error w1
      (before ++ [HandlerCalled handler request params context (Throw error);
                  ErrorRecorded error]).
Proof. unfold invoke. now intros ->. Qed.


Lemma tryHandlers_trace_head builder request handler rest params err w :
  exists tail,
    trace (tryHandlers builder request (handler :: rest) params err w)
    = trace (attempt builder request params handler err w) ++ tail.
Proof.
  cbn [tryHandlers]. destruct (returned (attempt builder request params handler err w)).
  - exists []. now rewrite app_nil_r.
  - rewrite emit_trace. eexists; reflexivity.
Qed.


End FallbackFacts.

(** * The examples of the specification *)

Section SpecExamples.

Import Examples.

(** [get('/user/:id', h1)] with [h1] throwing, then [get('/user/:id', h2)]
    with [h2] answering [{ id }]: GET [/user/42] is answered by [h2]. *)
Example fallback_to_second_handler :
  fst (fst (router_handler
              (get "/user/:id" (answering 1)
                 (get "/user/:id" (failing 1 boom) (newRouter None)))
              (request "GET" "user" "/42") 0%nat))
  = Normal (ok (JSObject [("id", JSString "42"); ("context", JSUndefined)])).
Proof. reflexivity. Qed.

(** Only [post('/user', handler)]: GET [/user] gets the 404 response. *)
Example method_mismatch_not_found :
  fst (fst (router_handler (post "/user" (answering 1) (newRouter None))
              (request "GET" "user" "") 0%nat))
  = Normal notFound.
Proof. reflexivity. Qed.

(** The method of the request is compared in upper case. *)
Example method_upper_cased :
  fst (fst (router_handler (post "/user" (answering 1) (newRouter None))
              (request "post" "user" "") 0%nat))
  = Normal (ok (JSObject [("id", JSUndefined); ("context", JSUndefined)])).
Proof. reflexivity. Qed.

(** The [params] object is shared by the handlers of a pattern: what the
    first handler writes to it, the second one reads. *)
Example params_object_is_shared :
  fst (fst (router_handler
              (get "/user/:id" (answering 1)
                 (get "/user/:id" (scribbling "changed" boom) (newRouter None)))
              (request "GET" "user" "/42") 0%nat))
  = Normal (ok (JSObject [("id", JSString "changed"); ("context", JSUndefined)])).
Proof. reflexivity. Qed.

(** An error that [JSON.stringify] cannot serialize: the dispatcher itself
    throws. *)
Example unserializable_error_rejects :
  fst (fst (router_handler
              (get "/user" (failing 1 (JSBigInt 1)) (newRouter None))
              (request "GET" "user" "") 0%nat))
  = Throw bigIntTypeError.
Proof. reflexivity. Qed.

(** The authority is the first segment: [my-app://user/7] and the pattern
    [/user/:id]. *)
Example authority_is_first_segment :
  pathPartsOf (request "GET" "user" "/7") = [""; "user"; "7"]
  /\ split "/user/:id" = [""; "user"; ":id"].
Proof. split; reflexivity. Qed.

(** A context builder that fails is no obstacle to a handler that declares
    one parameter, and skips a handler that declares two. *)
Example builder_failure_and_handler_length :
  map handler_length
    (handlersInvoked (snd (router_handler
       (get "/user" (answering 1)
          (get "/user" (answering 2) (newRouter (Some refusing))))
       (request "GET" "user" "") 0%nat)))
  = [1%nat].
Proof. reflexivity. Qed.

End SpecExamples.

(** * The claims *)

(** C1, as the code has it.  A pattern matches the request's segments
    exactly when both have the same number of segments and every pattern
    segment either starts with [:] and the request segment under it
    percent-decodes without error, or equals the request segment under it
    character for character; a different segment count never matches.
    The bindings of a match are the names after [:] with the decoded
    segments, written in segment order: a name other than [__proto__] that
    occurs once is bound to its decoded segment, and nothing else is
    bound.  The segments are walked from the left and the first pair that
    does not fit decides: when it is a [:name] segment over a request
    segment that does not decode, the candidate fails with the [URIError]
    recorded as the last error; when it is any other segment, the
    candidate is passed over and nothing is recorded.  Whenever the
    dispatcher invokes a handler, it is on the dispatched request and the
    handler is registered under a matching pattern of the wildcard bucket
    or of the bucket of the request's method.  The params it is given are
    the one object of that match: it holds exactly the bindings of the
    match when the first handler is invoked for the candidate, and for every
    handler of the candidate when none of them writes to it.  Without a
    context builder the first handler of a matching candidate that is
    reached is invoked. *)
Theorem path_matching {World : Type} :
  (forall path pathParts params,
     matchRoute path pathParts = Normal (Some params)
     <-> patternFits path pathParts = true /\ params = paramsOf path pathParts)
  /\ (forall path pathParts,
        length (split path) <> length pathParts ->
        matchRoute path pathParts = Normal None)
  /\ (forall path pathParts name value,
        paramsOf path pathParts !! name = Some value ->
        exists routePart pathPart,
          In (routePart, pathPart) (combine (split path) pathParts)
          /\ startsWithColon routePart = true
          /\ name = slice1 routePart
          /\ decodeURIComponent pathPart = Normal value)
  /\ (forall path pathParts routePart pathPart value,
        List.NoDup (map fst (bindings (combine (split path) pathParts))) ->
        In (routePart, pathPart) (combine (split path) pathParts) ->
        startsWithColon routePart = true ->
        slice1 routePart <> "__proto__" ->
        decodeURIComponent pathPart = Normal value ->
        paramsOf path pathParts !! slice1 routePart = Some value)
  /\ (forall path pathParts,
        length (split path) = length pathParts ->
        matchRoute path pathParts
        = match firstMisfit (combine (split path) pathParts) with
          | None => Normal (Some (paramsOf path pathParts))
          | Some (routePart, _) =>
              if startsWithColon routePart then Throw URIError else Normal None
          end)
  /\ (forall (builder : option (@ContextBuilder World)) request path handlers err w
             routePart pathPart,
        length (split path) = length (pathPartsOf request) ->
        firstMisfit (combine (split path) (pathPartsOf request))
        = Some (routePart, pathPart) ->
        tryPattern builder request (pathPartsOf request) (path, handlers) err w
        = if startsWithColon routePart
          then continue URIError w [ErrorRecorded URIError]
          else continue err w [])
  /\ (forall (router : @ProtocolRouter World) request w response w' evs h rq ps ctx res,
        router_handler router request w = (response, w', evs) ->
        In (HandlerCalled h rq ps ctx res) evs ->
        rq = request
        /\ exists k entry path handlers,
             In (k, entry) (routes router)
             /\ (k = Wildcard \/ keyName k = toUpperCase (method request))
             /\ In (path, handlers) entry
             /\ In h handlers
             /\ matchRoute path (pathPartsOf request)
                = Normal (Some (paramsOf path (pathPartsOf request)))
             /\ (Forall quiet handlers -> ps = paramsOf path (pathPartsOf request)))
  /\ (forall (builder : option (@ContextBuilder World)) request path handlers err w
             pre h rq ps ctx res post,
        trace (tryPattern builder request (pathPartsOf request) (path, handlers) err w)
        = pre ++ HandlerCalled h rq ps ctx res :: post ->
        handlersInvoked pre = [] ->
        ps = paramsOf path (pathPartsOf request)
        /\ matchRoute path (pathPartsOf request) = Normal (Some ps))
  /\ (forall request path (h : @ProtocolHandler World) hs params err w,
        matchRoute path (pathPartsOf request) = Normal (Some params) ->
        exists tail,
          trace (tryPattern None request (pathPartsOf request) (path, h :: hs) err w)
          = HandlerCalled h request params None (fst (call h request params None w))
            :: tail).
Proof.
  split; [|split; [|split; [|split; [|split; [|split; [|split; [|split]]]]]]].
  - intros. apply matchRoute_spec.
  - intros. now apply matchRoute_length.
  - intros path pathParts name value H. unfold paramsOf in H.
    apply bindAll_lookup_In in H as [H|H].
    + rewrite lookup_empty in H. discriminate H.
    + now apply bindings_In.
  - intros path pathParts routePart pathPart value Hnd Hin Hc Hname Hv.
    unfold paramsOf. apply bindAll_lookup_unique; auto.
    apply bindings_In. exists routePart, pathPart. auto.
  - intros. now apply matchRoute_firstMisfit.
  - intros builder request path handlers err w routePart pathPart Hlen Hfirst.
    unfold tryPattern. rewrite (matchRoute_firstMisfit _ _ Hlen), Hfirst.
    destruct (startsWithColon routePart); reflexivity.
  - intros router request w response w' evs h rq ps ctx res Hrun Hin.
    apply router_handler_scan in Hrun as (_ & _ & ->).
    apply in_split in Hin as (pre & post & Hevs).
    set (Phi := fun (pre : list (@Event World)) (ev : @Event World)
                    (post : list (@Event World)) (ret : option Response) =>
       forall h rq ps ctx res, ev = HandlerCalled h rq ps ctx res ->
         rq = request
         /\ exists k entry path handlers,
              In (k, entry) (routes router)
              /\ (k = Wildcard \/ keyName k = toUpperCase (method request))
              /\ In (path, handlers) entry
              /\ In h handlers
              /\ matchRoute path (pathPartsOf request)
                 = Normal (Some (paramsOf path (pathPartsOf request)))
              /\ (Forall quiet handlers -> ps = paramsOf path (pathPartsOf request))).
    refine (scan_positional (contextBuilder router) request Phi _ _ (routes router)
              _ _ w pre _ post Hevs h rq ps ctx res eq_refl).
    + intros t p e q ret Hp. exact Hp.
    + intros p e q t ret Hp. exact Hp.
    + intros error h0 rq0 ps0 ctx0 res0 He. discriminate He.
    + intros k entry path handlers params err w0 p e q Hk Hs Hp Hm Htr
             h0 rq0 ps0 ctx0 res0 ->.
      assert (In (HandlerCalled h0 rq0 ps0 ctx0 res0)
                 (trace (tryHandlers (contextBuilder router) request handlers params
                           err w0)))
        as Hcall by (rewrite Htr; apply in_elt).
      pose proof Hm as Hm'. apply matchRoute_spec in Hm' as [_ ->].
      destruct (tryHandlers_calls _ _ _ _ _ _ _ _ _ _ _ Hcall) as [Hh ->].
      split; [reflexivity|]. exists k, entry, path, handlers.
      repeat split; auto.
      * now apply skipped_false_iff.
      * intros Hq. exact (tryHandlers_quiet_calls _ _ _ _ _ _ _ _ _ _ _ Hq Hcall).
  - intros builder request path handlers err w pre h rq ps ctx res post Htr Hpre.
    unfold tryPattern in Htr.
    destruct (matchRoute path (pathPartsOf request)) as [[params|]|error] eqn:Hm.
    + apply tryHandlers_first_call in Htr; [|assumption]. subst ps.
      split; [|reflexivity]. now apply matchRoute_spec in Hm.
    + destruct pre; discriminate Htr.
    + destruct pre as [|? [|? ?]]; discriminate Htr.
  - intros request path h hs params err w Hm.
    unfold tryPattern. rewrite Hm.
    destruct (tryHandlers_trace_head None request h hs params err w) as [tail ->].
    rewrite attempt_no_builder. simpl. eexists; reflexivity.
Qed.

Lemma path_matching_witness :
  let rq := Examples.request "GET" "user" "/a%20b" in
  matchRoute "/user/:id" (pathPartsOf rq) = Normal (Some {[ "id" := "a b" ]})
  /\ matchRoute "/user/:id/posts" (pathPartsOf rq) = Normal None
  /\ paramsOf "/user/:id" (pathPartsOf rq) !! "id" = Some "a b"
  /\ tryPattern None (Examples.request "GET" "x" "/%")
       (pathPartsOf (Examples.request "GET" "x" "/%"))
       ("/x/:id", [Examples.answering 1]) JSNull 0%nat
     = continue URIError 0%nat [ErrorRecorded URIError]
  /\ tryPattern None (Examples.request "GET" "x" "/%")
       (pathPartsOf (Examples.request "GET" "x" "/%"))
       ("/y/:id", [Examples.answering 1]) JSNull 0%nat
     = continue JSNull 0%nat []
  /\ ({[ "id" := "a b" ]} = paramsOf "/user/:id" (pathPartsOf rq)
      /\ matchRoute "/user/:id" (pathPartsOf rq) = Normal (Some {[ "id" := "a b" ]}))
  /\ (let router := get "/user/:id" (Examples.answering 1)
                      (get "/user/:id" (Examples.failing 1 Examples.boom)
                         (newRouter None)) in
      exists k entry path handlers,
        In (k, entry) (routes router)
        /\ (k = Wildcard \/ keyName k = toUpperCase (method rq))
        /\ In (path, handlers) entry
        /\ In (Examples.answering 1) handlers
        /\ matchRoute path (pathPartsOf rq)
           = Normal (Some (paramsOf path (pathPartsOf rq)))
        /\ (Forall quiet handlers
            -> {[ "id" := "a b" ]} = paramsOf path (pathPartsOf rq))).
Proof.
  intros rq.
  pose proof (@path_matching Examples.W)
    as (Hiff & Hlen & _ & Hbind & _ & Hfirst & Hcalls & Hcall & _).
  split; [|split; [|split; [|split; [|split; [|split]]]]].
  - apply Hiff. split; reflexivity.
  - apply Hlen. vm_compute. discriminate.
  - apply (Hbind "/user/:id" (pathPartsOf rq) ":id" "a%20b" "a b").
    + vm_compute. repeat constructor. simpl. tauto.
    + vm_compute. right. right. left. reflexivity.
    + reflexivity.
    + discriminate.
    + reflexivity.
  - apply (Hfirst None (Examples.request "GET" "x" "/%") "/x/:id"
             [Examples.answering 1] JSNull 0%nat ":id" "%"); reflexivity.
  - apply (Hfirst None (Examples.request "GET" "x" "/%") "/y/:id"
             [Examples.answering 1] JSNull 0%nat "y" "x"); reflexivity.
  - apply (Hcall None rq "/user/:id" [Examples.answering 1] JSNull 0%nat
             [] (Examples.answering 1) rq {[ "id" := "a b" ]} None
             (Normal (Examples.ok (JSObject [("id", JSString "a b");
                                             ("context", JSUndefined)]))) []);
      reflexivity.
  - intros router.
    refine (proj2 (Hcalls router rq 0%nat
                     (fst (fst (router_handler router rq 0%nat)))
                     (snd (fst (router_handler router rq 0%nat)))
                     (snd (router_handler router rq 0%nat))
                     (Examples.answering 1) rq {[ "id" := "a b" ]} None
                     (Normal (Examples.ok (JSObject [("id", JSString "a b");
                                                     ("context", JSUndefined)])))
                     eq_refl _)).
    vm_compute. right. right. left. reflexivity.
Defined.

(** C1 as stated fails.  The pattern [/x/:id] has as many segments as the
    request path [/x/%] and each of its segments starts with [:] or equals
    the segment under it, but [%] is a malformed escape:
    [decodeURIComponent] throws and the candidate does not match.  The
    pattern [/x/:__proto__] matches [/x/42] without binding [__proto__].
    And of two handlers under [/user/:id] the second is not given the
    decoded bindings when the first has written to the params object. *)
Lemma path_matching_counterexample :
  ~ (forall path pathParts,
       patternFits_spec path pathParts = true ->
       exists params : Params, matchRoute path pathParts = Normal (Some params)
         /\ forall routePart pathPart,
              In (routePart, pathPart) (combine (split path) pathParts) ->
              startsWithColon routePart = true ->
              exists value, decodeURIComponent pathPart = Normal value
                /\ params !! slice1 routePart = Some value)
  /\ patternFits_spec "/x/:id" (pathPartsOf (Examples.request "GET" "x" "/%")) = true
  /\ matchRoute "/x/:id" (pathPartsOf (Examples.request "GET" "x" "/%")) = Throw URIError
  /\ matchRoute "/x/:__proto__" (pathPartsOf (Examples.request "GET" "x" "/42"))
     = Normal (Some ∅)
  /\ (let run := router_handler
                   (get "/user/:id" (Examples.answering 1)
                      (get "/user/:id" (Examples.scribbling "changed" Examples.boom)
                         (newRouter None)))
                   (Examples.request "GET" "user" "/42") 0%nat in
      paramsOf "/user/:id" (pathPartsOf (Examples.request "GET" "user" "/42"))
      = {[ "id" := "42" ]}
      /\ map (fun ev => match ev with
                        | HandlerCalled _ _ ps _ _ => ps !! "id"
                        | _ => None
                        end) (snd run)
         = [Some "42"; None; Some "changed"]).
Proof.
  split; [|repeat split].
  intros claim.
  destruct (claim "/x/:id" (pathPartsOf (Examples.request "GET" "x" "/%")) eq_refl)
    as (params & Hm & _).
  discriminate Hm.
Qed.







(** C4. On a router that has a context builder, when an invocation of the
    builder throws a value that is a response, that response is the result
    of the dispatch and the invocation is the last thing the dispatch did:
    neither the handler at hand nor any later handler, pattern or bucket
    is tried. *)
Theorem builder_response_short_circuits {World : Type}
    (router : @ProtocolRouter World) request w response w' evs
    pre rq error thrown post :
  router_handler router request w = (response, w', evs) ->
  evs = pre ++ BuilderCalled rq (Throw error) :: post ->
  instanceofResponse error = Some thrown ->
  response = Normal thrown /\ post = [].
Proof.
  intros Hrun Hevs Hthrown. apply router_handler_scan in Hrun as (-> & _ & ->).
  pose proof (scan_returnsLast (contextBuilder router) request (routes router) w) as H.
  unfold returnsLast, conclude in *.
  assert (shortCircuit (@BuilderCalled World rq (Throw error)) = Some thrown) as Hsc
    by exact Hthrown.
  destruct (returned (scan _ request _ w)) as [resp|].
  - destruct H as (pre' & ev & Htr & Hpre & Hev). rewrite Htr in Hevs.
    symmetry in Hevs. apply app_cons_split in Hevs as [(l & -> & _)|(l & -> & Hl)].
    + apply Forall_app in Hpre as [_ Hpre]. inversion Hpre as [|? ? [_ Hno] _]; subst.
      congruence.
    + destruct l as [|x l]; simpl in Hl.
      * injection Hl as -> <-.
        destruct Hev as [[_ Hev]|[_ Hev]]; split; congruence.
      * injection Hl as _ Hl. destruct l; discriminate Hl.
  - rewrite Hevs in H. apply Forall_app in H as [_ H].
    inversion H as [|? ? [_ Hno] _]; subst. congruence.
Qed.

Lemma builder_response_short_circuits_witness :
  let router := get "/user" (Examples.answering 2)
                  (get "/user" (Examples.failing 2 Examples.boom)
                     (newRouter (Some Examples.expiring))) in
  let run := router_handler router (Examples.request "GET" "user" "") 0%nat in
  length (snd run) = 4%nat /\ fst (fst run) = Normal Examples.unauthorized.
Proof.
  intros router run. split; [reflexivity|].
  refine (proj1 (builder_response_short_circuits router
            (Examples.request "GET" "user" "") 0%nat
            (fst (fst run)) (snd (fst run)) (snd run)
            (removelast (snd run)) (Examples.request "GET" "user" "")
            (valueOfResponse Examples.unauthorized) Examples.unauthorized []
            _ _ _)); reflexivity.
Defined.

(** C5. When a dispatch runs through every bucket, pattern and handler, no
    handler returns a response (nor does the context builder throw one) and
    no error is recorded, the response is exactly status 404 with the JSON
    body [{ message: 'Not found' }]. *)
Theorem not_found_when_nothing_recorded {World : Type}
    (router : @ProtocolRouter World) request w response w' evs :
  router_handler router request w = (response, w', evs) ->
  exhausted evs ->
  recordedErrors evs = [] ->
  response = Normal {| status := 404;
                       body := JSObject [("message", JSString "Not found")] |}.
Proof.
  intros Hrun Hex Hnone. apply router_handler_scan in Hrun as (-> & _ & ->).
  apply scan_exhausted in Hex. unfold conclude. rewrite Hex.
  rewrite scan_lastError, Hnone. reflexivity.
Qed.

Lemma not_found_when_nothing_recorded_witness :
  fst (fst (router_handler (post "/user" (Examples.answering 1) (newRouter None))
              (Examples.request "GET" "user" "") 0%nat))
  = Normal {| status := 404; body := JSObject [("message", JSString "Not found")] |}.
Proof.
  apply (not_found_when_nothing_recorded
           (post "/user" (Examples.answering 1) (newRouter None))
           (Examples.request "GET" "user" "") 0%nat _ 0%nat []).
  - reflexivity.
  - constructor.
  - reflexivity.
Defined.

(** C6, as the code has it.  On a router constructed with a context
    builder, the builder is invoked once per handler attempt, not once per
    request: trying a handler list invokes it at most as many times as the
    list has handlers, and exactly that many times when no attempt ends
    the dispatch.  Every handler invocation is immediately preceded by the
    builder invocation of its own attempt, on the dispatched request: a
    handler that receives a context receives the value that invocation
    returned, and a handler that receives none declares fewer than two
    parameters and follows an invocation that threw a value other than a
    response.  Nothing is kept from one attempt to the next or from one
    request to the next. *)
Theorem context_built_per_attempt {World : Type} :
  (forall (b : @ContextBuilder World) request params handlers err w,
     let r := tryHandlers (Some b) request handlers params err w in
     (length (builderResults (trace r)) <= length handlers)%nat
     /\ (returned r = None -> length (builderResults (trace r)) = length handlers))
  /\ (forall (router : @ProtocolRouter World) b request w response w' evs
             pre h rq ps ctx res post,
        contextBuilder router = Some b ->
        router_handler router request w = (response, w', evs) ->
        evs = pre ++ HandlerCalled h rq ps ctx res :: post ->
        exists pre' built,
          pre = pre' ++ [BuilderCalled request built]
          /\ match ctx with
             | Some context => built = Normal context
             | None => exists error, built = Throw error
                         /\ instanceofResponse error = None
                         /\ (handler_length h < 2)%nat
             end).
Proof.
  split; [intros; apply tryHandlers_builderResults|].
  intros router b request w response w' evs pre h rq ps ctx res post Hb Hrun Hevs.
  apply router_handler_scan in Hrun as (_ & _ & ->). rewrite Hb in Hevs.
  revert h rq ps ctx res Hevs.
  set (Phi := fun (pre : list (@Event World)) (ev : @Event World)
                  (post : list (@Event World)) (ret : option Response) =>
     forall h rq ps ctx res, ev = HandlerCalled h rq ps ctx res ->
       exists pre' built,
         pre = pre' ++ [BuilderCalled request built]
         /\ match ctx with
            | Some context => built = Normal context
            | None => exists error, built = Throw error
                        /\ instanceofResponse error = None
                        /\ (handler_length h < 2)%nat
            end).
  assert (forall ev, trace (scan (Some b) request (routes router) w) = pre ++ ev :: post ->
            Phi pre ev post (returned (scan (Some b) request (routes router) w))) as H.
  { intros ev. apply (scan_positional_attempts (Some b) request Phi).
    - intros t p e q ret Hp h0 rq0 ps0 ctx0 res0 He.
      destruct (Hp _ _ _ _ _ He) as (pre' & built & -> & Hc).
      exists (t ++ pre'), built. now rewrite app_assoc.
    - intros p e q t ret Hp. exact Hp.
    - intros error h0 rq0 ps0 ctx0 res0 He. discriminate He.
    - intros k entry path handlers handler matched params err w0 p e q _ _ _ _ _ Htr
             h0 rq0 ps0 ctx0 res0 ->.
      apply attempt_context in Htr as (built & -> & Hc).
      exists [], built. split; [reflexivity|exact Hc]. }
  intros h rq ps ctx res Hevs. exact (H _ Hevs h rq ps ctx res eq_refl).
Qed.

Lemma context_built_per_attempt_witness :
  let router := get "/user" (Examples.answering 2)
                  (get "/user" (Examples.failing 2 Examples.boom)
                     (newRouter (Some Examples.counting))) in
  let run := router_handler router (Examples.request "GET" "user" "") 0%nat in
  builderResults (snd run) = [Normal (JSNumber 1); Normal (JSNumber 2)]
  /\ fst (fst run)
     = Normal (Examples.ok (JSObject [("id", JSUndefined); ("context", JSNumber 2)]))
  /\ exists pre' built,
       firstn 4 (snd run) = pre' ++ [BuilderCalled (Examples.request "GET" "user" "") built]
       /\ built = Normal (JSNumber 2).
Proof.
  intros router run. split; [reflexivity|]. split; [reflexivity|].
  refine (proj2 context_built_per_attempt router Examples.counting
            (Examples.request "GET" "user" "") 0%nat
            (fst (fst run)) (snd (fst run)) (snd run)
            (firstn 4 (snd run)) (Examples.answering 2)
            (Examples.request "GET" "user" "") ∅ (Some (JSNumber 2))
            (Normal (Examples.ok (JSObject [("id", JSUndefined); ("context", JSNumber 2)])))
            [] _ _ _); reflexivity.
Defined.

(** C6 as stated fails: with two handlers under one pattern, the first of
    which throws, one dispatch invokes the context builder twice. *)
Lemma context_once_counterexample :
  ~ (forall (router : @ProtocolRouter Examples.W) request w response w' evs,
       router_handler router request w = (response, w', evs) ->
       (length (builderResults evs) <= 1)%nat).
Proof.
  intros claim.
  pose proof (claim
    (get "/user" (Examples.answering 2)
       (get "/user" (Examples.failing 2 Examples.boom)
          (newRouter (Some Examples.counting))))
    (Examples.request "GET" "user" "") 0%nat _ _ _ eq_refl) as H.
  vm_compute in H. lia.
Qed.

(** C7. [on(pattern, handler)] stores the handler under the ['*'] key.  The
    dispatcher skips a bucket only when its key is neither ['*'] nor the
    request's method, so the wildcard bucket is scanned for every request
    and the bucket of the request's own method is scanned as well: the
    scan is one loop over the patterns of both, in the table's order.  A
    router holding one wildcard handler serves a request of any method
    whose path matches. *)
Theorem wildcard_alongside {World : Type} :
  (forall path (h : @ProtocolHandler World) router,
     on path h router = add Wildcard path h router
     /\ handlersAt Wildcard path (routes (on path h router))
        = Some (default [] (handlersAt Wildcard path (routes router)) ++ [h]))
  /\ (forall requestMethod, skipped Wildcard requestMethod = false)
  /\ (forall m requestMethod,
        skipped (Method m) requestMethod = false <-> methodName m = requestMethod)
  /\ (forall builder request (table : @Routes World) w,
        scan builder request table w
        = forEach (tryPattern builder request (pathPartsOf request))
            (candidates (toUpperCase (method request)) table) JSNull w)
  /\ (forall request (table : @Routes World) k entry e,
        In (k, entry) table ->
        k = Wildcard \/ keyName k = toUpperCase (method request) ->
        In e entry ->
        In e (candidates (toUpperCase (method request)) table))
  /\ (forall request path (h : @ProtocolHandler World) params response w w',
        matchRoute path (pathPartsOf request) = Normal (Some params) ->
        call h request params None w = (Normal response, w') ->
        router_handler (on path h (newRouter None)) request w
        = (Normal response, w',
           [HandlerCalled h request params None (Normal response)])).
Proof.
  repeat split.
  - apply handlersAt_add_same.
  - intros H. apply skipped_false_iff in H as [H|H]; [discriminate H|exact H].
  - intros H. apply skipped_false_iff. now right.
  - apply scan_candidates.
  - intros request table k entry e Hk Hkey He.
    eapply candidates_In; eauto. now apply skipped_false_iff.
  - intros request path h params response w w' Hm Hcall.
    unfold router_handler, scan; simpl. unfold attempt, invoke.
    rewrite Hm. simpl. rewrite Hcall. reflexivity.
Qed.

Lemma wildcard_alongside_witness :
  let h := Examples.answering 1 in
  let router := get "/any" (Examples.failing 1 Examples.boom) (on "/any" h (newRouter None)) in
  fst (fst (router_handler (on "/any" h (newRouter None)) (Examples.request "GET" "any" "") 0%nat))
  = fst (fst (router_handler (on "/any" h (newRouter None)) (Examples.request "POST" "any" "") 0%nat))
  /\ In ("/any", [Examples.failing 1 Examples.boom])
        (candidates "GET" (routes router))
  /\ In ("/any", [h]) (candidates "GET" (routes router)).
Proof.
  intros h router.
  pose proof (@wildcard_alongside Examples.W) as (_ & _ & _ & _ & Hin & Hserve).
  split; [|split].
  - rewrite (Hserve (Examples.request "GET" "any" "") "/any" h
               ∅ (Examples.ok (JSObject [("id", JSUndefined); ("context", JSUndefined)]))
               0%nat 0%nat)
      by reflexivity.
    rewrite (Hserve (Examples.request "POST" "any" "") "/any" h
               ∅ (Examples.ok (JSObject [("id", JSUndefined); ("context", JSUndefined)]))
               0%nat 0%nat)
      by reflexivity.
    reflexivity.
  - apply (Hin (Examples.request "get" "any" "") (routes router) (Method GET)
             [("/any", [Examples.failing 1 Examples.boom])]).
    + right. left. reflexivity.
    + right. reflexivity.
    + left. reflexivity.
  - apply (Hin (Examples.request "get" "any" "") (routes router) Wildcard [("/any", [h])]).
    + left. reflexivity.
    + left. reflexivity.
    + left. reflexivity.
Defined.

(** C8. [register] on a router without registrations returns the
    configuration error (a value, not a response) and leaves the transport
    as it was; on a router with a registration it returns nothing and
    installs the dispatcher for the scheme.  A new router has no
    registrations and a router that went through [#add] has one.  The test
    is made by [register] only: the dispatcher of a router without
    registrations answers a request with the not-found response. *)
Theorem register_guard {World : Type} (router : @ProtocolRouter World)
    (protocol : Protocol) (scheme : string) :
  (routes router = [] ->
     register router protocol scheme = (Some noHandlersError, protocol))
  /\ (routes router <> [] ->
        register router protocol scheme = (None, protocol ++ [scheme]))
  /\ (forall cb : option (@ContextBuilder World), routes (newRouter cb) = [])
  /\ (forall k path h,
        register (add k path h router) protocol scheme = (None, protocol ++ [scheme]))
  /\ (forall request w,
        routes router = [] ->
        router_handler router request w = (Normal notFound, w, [])).
Proof.
  unfold register. repeat split.
  - intros ->. reflexivity.
  - intros Hne. destruct (routes router); [contradiction|reflexivity].
  - intros k path h. simpl.
    pose proof (add_routes_not_nil k path h (routes router)) as Hne.
    destruct (add_routes k path h (routes router)); [contradiction|reflexivity].
  - intros request w Hempty. unfold router_handler, scan. rewrite Hempty. reflexivity.
Qed.

Lemma register_guard_witness :
  register (@newRouter Examples.W None) [] "my-app" = (Some noHandlersError, [])
  /\ register (get "/user" (Examples.answering 1) (@newRouter Examples.W None)) [] "my-app"
     = (None, ["my-app"])
  /\ router_handler (@newRouter Examples.W None) (Examples.request "GET" "user" "") 0%nat
     = (Normal notFound, 0%nat, []).
Proof.
  split; [|split].
  - apply (proj1 (register_guard (@newRouter Examples.W None) [] "my-app")). reflexivity.
  - apply (proj1 (proj2 (register_guard
      (get "/user" (Examples.answering 1) (@newRouter Examples.W None)) [] "my-app"))).
    discriminate.
  - apply (proj2 (proj2 (proj2 (proj2 (register_guard
      (@newRouter Examples.W None) [] "my-app"))))). reflexivity.
Defined.

(** C9. Route-table invariant: a new router satisfies it and every
    registration operation ([get], [post], [put], [delete], [patch],
    [head], [options], [trace], [connect], [on]) preserves it: no stored
    handler list is empty.  Under every (method, pattern) key the list is
    afterwards what it was, or what it was (nothing, when the key was
    absent) with the new handler appended: a list is created by the first
    registration for its key and only grows at its end.  Each operation
    has its key ([get] the key GET, ..., [on] the key ['*']): under that
    key and the registered pattern the list afterwards is the list before
    with the new handler at its end, and under every other key and pattern
    it is the list before. *)
Theorem route_table_invariant {World : Type} :
  (forall cb : option (@ContextBuilder World), nonEmptyLists (routes (newRouter cb)))
  /\ map fst (@registrationKeys World) = registrationOps
  /\ forall op path (h : @ProtocolHandler World) router,
       In op registrationOps ->
       nonEmptyLists (routes router) ->
       nonEmptyLists (routes (op path h router))
       /\ (forall k p hs, handlersAt k p (routes (op path h router)) = Some hs -> hs <> [])
       /\ (forall k p,
             handlersAt k p (routes (op path h router)) = handlersAt k p (routes router)
             \/ handlersAt k p (routes (op path h router))
                = Some (default [] (handlersAt k p (routes router)) ++ [h]))
       /\ (forall k0, In (op, k0) registrationKeys ->
             handlersAt k0 path (routes (op path h router))
             = Some (default [] (handlersAt k0 path (routes router)) ++ [h])
             /\ forall k p, (k, p) <> (k0, path) ->
                  handlersAt k p (routes (op path h router))
                  = handlersAt k p (routes router)).
Proof.
  split; [intros cb; constructor|]. split; [reflexivity|].
  intros op path h router Hop Hinv.
  split; [|split; [|split]].
  - apply registrationOps_add in Hop as [k0 ->]. simpl.
    now apply add_routes_nonEmpty.
  - apply registrationOps_add in Hop as [k0 ->]. simpl.
    intros k p hs. apply nonEmptyLists_handlersAt.
    now apply add_routes_nonEmpty.
  - apply registrationOps_add in Hop as [k0 ->]. simpl.
    intros k p.
    destruct (MethodKey_eqb k0 k) eqn:Ek; [destruct (String.eqb path p) eqn:Ep|].
    + apply MethodKey_eqb_eq in Ek as <-. apply String.eqb_eq in Ep as <-.
      right. apply handlersAt_add_same.
    + apply String.eqb_neq in Ep. left. apply handlersAt_add_other. congruence.
    + apply MethodKey_eqb_neq in Ek. left. apply handlersAt_add_other. congruence.
  - intros k0 Hkey.
    assert (op = add k0) as ->.
    { unfold registrationKeys in Hkey. simpl in Hkey.
      repeat (destruct Hkey as [Hkey|Hkey];
              [injection Hkey as <- <-; reflexivity|]).
      contradiction. }
    simpl. split; [apply handlersAt_add_same|].
    intros k p Hne. apply handlersAt_add_other. congruence.
Qed.

Lemma route_table_invariant_witness :
  let h0 := Examples.answering 1 in
  let h := Examples.failing 1 Examples.boom in
  let router := get "/a" h0 (post "/user" h0 (newRouter None)) in
  nonEmptyLists (routes (get "/a" h router))
  /\ handlersAt (Method GET) "/a" (routes (get "/a" h router)) = Some [h0; h]
  /\ handlersAt (Method GET) "/b" (routes (get "/b" h router)) = Some [h]
  /\ handlersAt (Method GET) "/a" (routes (get "/b" h router)) = Some [h0]
  /\ handlersAt (Method POST) "/user" (routes (get "/b" h router)) = Some [h0].
Proof.
  intros h0 h router.
  destruct (proj2 (proj2 route_table_invariant) get "/a" h router)
    as (H1 & _ & _ & Ha).
  { simpl. auto. }
  { repeat constructor; simpl; discriminate. }
  destruct (proj2 (proj2 route_table_invariant) get "/b" h router)
    as (_ & _ & _ & Hb).
  { simpl. auto. }
  { repeat constructor; simpl; discriminate. }
  destruct (Ha (Method GET)) as [Ha1 _]; [left; reflexivity|].
  destruct (Hb (Method GET)) as [Hb1 Hb2]; [left; reflexivity|].
  split; [exact H1|]. split; [exact Ha1|]. split; [exact Hb1|].
  split.
  - rewrite (Hb2 (Method GET) "/a") by discriminate. reflexivity.
  - rewrite (Hb2 (Method POST) "/user") by discriminate. reflexivity.
Defined.

(** C10. When a dispatch runs through every candidate, no handler returns
    a response and every error recorded on the way is falsy ([null],
    [undefined], [0], [false], the empty string), the response is the 404
    not-found response and not the 500 one: the last statement of the
    dispatcher tests [lastError] for truthiness. *)
Theorem falsy_errors_give_not_found {World : Type}
    (router : @ProtocolRouter World) request w response w' evs :
  router_handler router request w = (response, w', evs) ->
  exhausted evs ->
  Forall (fun error => truthy error = false) (recordedErrors evs) ->
  response = Normal notFound
  /\ forall reason, response <> Normal (internalError reason).
Proof.
  intros Hrun Hex Hfalsy. apply router_handler_scan in Hrun as (-> & _ & ->).
  apply scan_exhausted in Hex. unfold conclude. rewrite Hex.
  rewrite scan_lastError.
  assert (truthy (default JSNull (last (recordedErrors
            (trace (scan (contextBuilder router) request (routes router) w))))) = false)
    as Hlast.
  { destruct (last _) as [error|] eqn:Hl; simpl; [|reflexivity].
    apply (last_Forall _ _ _ Hl Hfalsy). }
  rewrite Hlast. split; [reflexivity|]. intros reason. discriminate.
Qed.

Lemma falsy_errors_give_not_found_witness :
  let router := get "/user" (Examples.failing 1 (JSString ""))
                  (get "/user" (Examples.failing 1 JSNull) (newRouter None)) in
  let run := router_handler router (Examples.request "GET" "user" "") 0%nat in
  recordedErrors (snd run) = [JSNull; JSString ""]
  /\ fst (fst run) = Normal notFound.
Proof.
  intros router run. split; [reflexivity|].
  apply (falsy_errors_give_not_found router (Examples.request "GET" "user" "") 0%nat
           (fst (fst run)) (snd (fst run)) (snd run)).
  - reflexivity.
  - repeat constructor.
  - repeat constructor.
Defined.

(** * Further properties of the dispatcher *)

Section DispatchMore.

Context {World : Type}.

Implicit Types (r : @Run World) (ev : @Event World)
  (evs pre post : list (@Event World)) (err : JSValue) (w : World).

(** An event that carries a response ends the run with that response. *)
Lemma returnsLast_terminal r pre ev post answer :
  returnsLast r ->
  trace r = pre ++ ev :: post ->
  handlerResponse ev = Some answer \/ shortCircuit ev = Some answer ->
  returned r = Some answer /\ post = [].
Proof.
  unfold returnsLast. intros H Htr Hev.
  destruct (returned r) as [resp|].
  - destruct H as (pre' & last_ev & Hlast & Hpre & Hlev). rewrite Hlast in Htr.
    symmetry in Htr. apply app_cons_split in Htr as [(l & -> & _)|(l & -> & Hl)].
    + apply Forall_app in Hpre as [_ Hpre]. inversion Hpre as [|? ? [H1 H2] _]; subst.
      destruct Hev; congruence.
    + destruct l as [|x l]; simpl in Hl.
      * injection Hl as -> <-. split; [|reflexivity].
        destruct Hev as [Hev|Hev], Hlev as [[H1 H2]|[H1 H2]]; congruence.
      * injection Hl as _ Hl. destruct l; discriminate Hl.
  - rewrite Htr in H. apply Forall_app in H as [_ H].
    inversion H as [|? ? [H1 H2] _]; subst. destruct Hev; congruence.
Qed.

Lemma positional_Forall (P : @Event World -> Prop) evs :
  (forall pre ev post, evs = pre ++ ev :: post -> P ev) -> Forall P evs.
Proof.
  intros H. apply List.Forall_forall. intros ev Hin.
  apply in_split in Hin as (pre & post & ->). eapply H; reflexivity.
Qed.

Lemma omap_all_None {A B : Type} (f : A -> option B) (l : list A) :
  Forall (fun x => f x = None) l -> omap f l = [].
Proof. induction 1 as [|x l Hx _ IH]; simpl; [reflexivity|]. now rewrite Hx. Qed.

(** Trying candidates none of which matches does nothing. *)
Lemma forEach_tryPattern_no_match builder request pathParts
    (cands : @RouteMap World) err w :
  Forall (fun entry => matchRoute (fst entry) pathParts = Normal None) cands ->
  forEach (tryPattern builder request pathParts) cands err w = continue err w [].
Proof.
  induction 1 as [|[path handlers] rest Hm _ IH]; cbn [forEach]; [reflexivity|].
  simpl in Hm.
  assert (tryPattern builder request pathParts (path, handlers) err w
          = continue err w []) as -> by (unfold tryPattern; now rewrite Hm).
  cbn [returned continue trace lastError world].
  rewrite emit_nil. exact IH.
Qed.

Lemma matchRoute_throw path pathParts error :
  matchRoute path pathParts = Throw error -> error = URIError.
Proof.
  destruct (Nat.eqb (length (split path)) (length pathParts)) eqn:Hlen.
  - apply Nat.eqb_eq in Hlen. rewrite (matchRoute_firstMisfit _ _ Hlen).
    destruct (firstMisfit _) as [[routePart pathPart]|];
      [destruct (startsWithColon routePart)|]; congruence.
  - unfold matchRoute. rewrite Hlen. discriminate.
Qed.

(** Trying candidates none of which fits records one error for each
    pattern whose matching throws, and does nothing else. *)
Lemma forEach_tryPattern_no_fit builder request pathParts
    (cands : @RouteMap World) err w :
  Forall (fun entry => fits pathParts entry = false) cands ->
  forEach (tryPattern builder request pathParts) cands err w
  = continue (if existsb (throwsOn pathParts) cands then URIError else err) w
      (map (fun _ => ErrorRecorded URIError)
           (List.filter (throwsOn pathParts) cands)).
Proof.
  intros H. revert err. induction H as [|[path handlers] rest Hm _ IH]; intros err;
    cbn [forEach]; [reflexivity|].
  cbn [existsb List.filter].
  unfold fits in Hm. unfold throwsOn at 1 3. cbn [fst] in *.
  destruct (matchRoute path pathParts) as [[params|]|error] eqn:Hroute;
    [discriminate Hm| |].
  - assert (tryPattern builder request pathParts (path, handlers) err w
            = continue err w []) as -> by (unfold tryPattern; now rewrite Hroute).
    cbn [returned continue trace lastError world orb].
    rewrite emit_nil. apply IH.
  - apply matchRoute_throw in Hroute as Herror. subst error.
    assert (tryPattern builder request pathParts (path, handlers) err w
            = continue URIError w [ErrorRecorded URIError]) as ->
      by (unfold tryPattern; now rewrite Hroute).
    cbn [returned continue trace lastError world orb map].
    rewrite IH. unfold emit, continue; simpl.
    destruct (existsb _ rest); reflexivity.
Qed.

Lemma matchingHandlers_cons pathParts (entry : string * list (@ProtocolHandler World))
    cands :
  matchingHandlers pathParts (entry :: cands)
  = (if fits pathParts entry then snd entry else [])
    ++ matchingHandlers pathParts cands.
Proof.
  unfold matchingHandlers. simpl. destruct (fits pathParts entry); reflexivity.
Qed.

(** Without a context builder a handler list is walked from its start:
    what was invoked is a prefix of it, all of it when no handler
    answered. *)
Lemma tryHandlers_prefix request params (handlers : list (@ProtocolHandler World))
    err w :
  let r := tryHandlers None request handlers params err w in
  handlersInvoked (trace r) `prefix_of` handlers
  /\ (returned r = None -> handlersInvoked (trace r) = handlers).
Proof.
  revert params err w. induction handlers as [|handler rest IH]; intros params err w;
    cbv zeta; cbn [tryHandlers].
  - split; reflexivity.
  - assert (handlersInvoked (trace (attempt None request params handler err w))
            = [handler]) as H1.
    { rewrite attempt_no_builder.
      destruct (fst (call handler request params None w)); reflexivity. }
    destruct (returned (attempt None request params handler err w)) eqn:Hret.
    + rewrite H1, Hret. split; [|discriminate].
      exists rest. reflexivity.
    + rewrite emit_trace. cbn [returned emit]. unfold handlersInvoked in *.
      rewrite omap_app, H1.
      specialize (IH (paramsAfter None request params handler w)
                     (lastError (attempt None request params handler err w))
                     (world (attempt None request params handler err w))).
      cbv zeta in IH. destruct IH as [IH1 IH2]. split.
      * now apply (prefix_app [handler]).
      * intros Hnone. now rewrite IH2.
Qed.

Lemma tryPattern_handlers_sublist builder request pathParts
    (entry : string * list (@ProtocolHandler World)) err w :
  sublist (handlersInvoked (trace (tryPattern builder request pathParts entry err w)))
          (if fits pathParts entry then snd entry else []).
Proof.
  unfold tryPattern, fits. destruct entry as [path handlers]. simpl.
  destruct (matchRoute path pathParts) as [[params|]|error]; simpl.
  - apply tryHandlers_sublist.
  - constructor.
  - constructor.
Qed.

Lemma tryPattern_handlers_prefix request pathParts
    (entry : string * list (@ProtocolHandler World)) err w :
  let r := tryPattern None request pathParts entry err w in
  handlersInvoked (trace r) `prefix_of` (if fits pathParts entry then snd entry else [])
  /\ (returned r = None
      -> handlersInvoked (trace r) = if fits pathParts entry then snd entry else []).
Proof.
  unfold tryPattern, fits. destruct entry as [path handlers]. simpl.
  destruct (matchRoute path pathParts) as [[params|]|error]; simpl.
  - apply tryHandlers_prefix.
  - split; reflexivity.
  - split; reflexivity.
Qed.

Lemma forEach_tryPattern_sublist builder request pathParts (cands : @RouteMap World)
    err w :
  sublist
    (handlersInvoked (trace (forEach (tryPattern builder request pathParts) cands err w)))
    (matchingHandlers pathParts cands).
Proof.
  revert err w. induction cands as [|entry rest IH]; intros err w; cbn [forEach].
  - constructor.
  - rewrite matchingHandlers_cons.
    pose proof (tryPattern_handlers_sublist builder request pathParts entry err w) as H1.
    destruct (returned (tryPattern builder request pathParts entry err w)).
    + apply sublist_inserts_r. exact H1.
    + rewrite emit_trace. unfold handlersInvoked in *. rewrite omap_app.
      apply sublist_app; [exact H1|apply IH].
Qed.

Lemma forEach_tryPattern_prefix request pathParts (cands : @RouteMap World) err w :
  let r := forEach (tryPattern None request pathParts) cands err w in
  handlersInvoked (trace r) `prefix_of` matchingHandlers pathParts cands
  /\ (returned r = None -> handlersInvoked (trace r) = matchingHandlers pathParts cands).
Proof.
  revert err w. induction cands as [|entry rest IH]; intros err w;
    cbv zeta; cbn [forEach].
  - split; reflexivity.
  - rewrite matchingHandlers_cons.
    destruct (tryPattern_handlers_prefix request pathParts entry err w) as [H1 H2].
    destruct (returned (tryPattern None request pathParts entry err w)) eqn:Hret.
    + rewrite Hret. split; [|discriminate]. now apply prefix_app_r.
    + rewrite emit_trace. cbn [returned emit]. unfold handlersInvoked in *.
      rewrite omap_app, (H2 eq_refl).
      specialize (IH (lastError (tryPattern None request pathParts entry err w))
                     (world (tryPattern None request pathParts entry err w))).
      cbv zeta in IH. destruct IH as [IH1 IH2]. split.
      * now apply prefix_app.
      * intros Hnone. now rewrite IH2.
Qed.

End DispatchMore.

(** X1. The first response a handler returns is the result of the
    dispatch, whatever errors were recorded before it, and the dispatcher
    does nothing after it: no later handler, pattern or bucket is tried
    and the context builder is not invoked again. *)
Theorem handler_response_wins {World : Type}
    (router : @ProtocolRouter World) request w response w' evs
    pre h rq ps ctx answer post :
  router_handler router request w = (response, w', evs) ->
  evs = pre ++ HandlerCalled h rq ps ctx (Normal answer) :: post ->
  response = Normal answer /\ post = [].
Proof.
  intros Hrun Hevs. apply router_handler_scan in Hrun as (-> & _ & ->).
  destruct (returnsLast_terminal _ _ _ _ answer
              (scan_returnsLast (contextBuilder router) request (routes router) w) Hevs)
    as [Hret ->]; [left; reflexivity|].
  unfold conclude. rewrite Hret. auto.
Qed.

Lemma handler_response_wins_witness :
  let router := get "/user/:id" (Examples.failing 1 Examples.boom)
                  (get "/user/:id" (Examples.answering 1)
                     (get "/user/:id" (Examples.failing 1 Examples.boom)
                        (newRouter None))) in
  let run := router_handler router (Examples.request "GET" "user" "/42") 0%nat in
  length (snd run) = 3%nat
  /\ fst (fst run)
     = Normal (Examples.ok (JSObject [("id", JSString "42"); ("context", JSUndefined)])).
Proof.
  intros router run. split; [reflexivity|].
  refine (proj1 (handler_response_wins router
            (Examples.request "GET" "user" "/42") 0%nat
            (fst (fst run)) (snd (fst run)) (snd run)
            (removelast (snd run)) (Examples.answering 1)
            (Examples.request "GET" "user" "/42") {[ "id" := "42" ]} None
            (Examples.ok (JSObject [("id", JSString "42"); ("context", JSUndefined)]))
            [] _ _)); reflexivity.
Defined.

(** X2. Where the result of a dispatch comes from.  It is the response
    the last handler invocation returned, or the response the last
    invocation of the context builder threw, or, after a scan that ran to
    its end, the 404 response, or the 500 response carrying the truthy
    error recorded last when that error can be serialized, or no response
    at all: when the truthy error recorded last cannot be serialized, the
    dispatcher throws what [JSON.stringify] threw.  The dispatcher has no
    other outcome. *)
Theorem response_provenance {World : Type}
    (router : @ProtocolRouter World) request w response w' evs :
  router_handler router request w = (response, w', evs) ->
  (exists pre h rq ps ctx answer,
     evs = pre ++ [HandlerCalled h rq ps ctx (Normal answer)]
     /\ exhausted pre /\ response = Normal answer)
  \/ (exists pre rq error thrown,
        evs = pre ++ [BuilderCalled rq (Throw error)]
        /\ instanceofResponse error = Some thrown
        /\ exhausted pre /\ response = Normal thrown)
  \/ (exhausted evs /\ response = Normal notFound
      /\ truthy (default JSNull (last (recordedErrors evs))) = false)
  \/ (exhausted evs
      /\ exists error, last (recordedErrors evs) = Some error
           /\ truthy error = true /\ stringifyThrows error = None
           /\ response = Normal (internalError error))
  \/ (exhausted evs
      /\ exists error thrown, last (recordedErrors evs) = Some error
           /\ truthy error = true /\ stringifyThrows error = Some thrown
           /\ response = Throw thrown).
Proof.
  intros Hrun. apply router_handler_scan in Hrun as (-> & _ & ->).
  pose proof (scan_returnsLast (contextBuilder router) request (routes router) w) as H.
  pose proof (scan_lastError (contextBuilder router) request (routes router) w) as Hlast.
  unfold returnsLast, conclude in *.
  destruct (returned (scan _ request _ w)) as [resp|].
  - destruct H as (pre & ev & Htr & Hpre & [[Hh Hs]|[Hh Hs]]).
    + left. destruct ev as [rq res|h rq ps ctx [answer|error]|error];
        try discriminate Hh.
      injection Hh as ->. exists pre, h, rq, ps, ctx, resp. auto.
    + right. left. destruct ev as [rq [c|error]|h rq ps ctx res|error];
        try discriminate Hs.
      exists pre, rq, error, resp. auto.
  - right. right. rewrite Hlast.
    destruct (last (recordedErrors (trace (scan _ request _ w)))) as [error|] eqn:Hl;
      simpl default.
    + destruct (truthy error) eqn:Ht.
      * right. rewrite Response_json_internalError.
        destruct (stringifyThrows error) as [thrown|] eqn:Hjson.
        -- right. split; [assumption|]. exists error, thrown. auto.
        -- left. split; [assumption|]. exists error. auto.
      * left. auto.
    + left. auto.
Qed.

Lemma response_provenance_witness :
  let router := get "/user" (Examples.failing 1 Examples.boom) (newRouter None) in
  let run := router_handler router (Examples.request "GET" "user" "") 0%nat in
  fst (fst run) = Normal (internalError Examples.boom).
Proof.
  intros router run.
  destruct (response_provenance router (Examples.request "GET" "user" "") 0%nat
              (fst (fst run)) (snd (fst run)) (snd run) eq_refl)
    as [H|[H|[H|[(_ & error & Hl & _ & _ & Hr)|(_ & error & thrown & Hl & _ & Hj & _)]]]].
  - destruct H as (pre & h & rq & ps & ctx & answer & He & _).
    destruct pre as [|? [|? [|? ?]]]; discriminate He.
  - destruct H as (pre & rq & error & thrown & He & _).
    destruct pre as [|? [|? [|? ?]]]; discriminate He.
  - destruct H as (_ & _ & Ht). discriminate Ht.
  - injection Hl as <-. exact Hr.
  - injection Hl as <-. discriminate Hj.
Defined.

(** X3. On a router constructed without a context builder no context is
    ever built and every handler is invoked with [{ request, params }]
    only. *)
Theorem no_builder_no_context {World : Type}
    (router : @ProtocolRouter World) request w response w' evs :
  contextBuilder router = None ->
  router_handler router request w = (response, w', evs) ->
  builderResults evs = []
  /\ Forall (fun ev => forall h rq ps ctx res,
               ev = HandlerCalled h rq ps ctx res -> ctx = None) evs.
Proof.
  intros Hnone Hrun. apply router_handler_scan in Hrun as (_ & _ & ->).
  rewrite Hnone.
  set (Phi := fun (pre : list (@Event World)) (ev : @Event World)
                  (post : list (@Event World)) (ret : option Response) =>
     builtOf ev = None
     /\ forall h rq ps ctx res, ev = HandlerCalled h rq ps ctx res -> ctx = None).
  assert (Forall (fun ev => builtOf ev = None
            /\ forall h rq ps ctx res, ev = HandlerCalled h rq ps ctx res -> ctx = None)
            (trace (scan None request (routes router) w))) as Hall.
  { apply positional_Forall. intros pre ev post Htr.
    refine (scan_positional_attempts None request Phi _ _ (routes router) _ _
              w pre ev post Htr).
    - intros t p e q ret Hp. exact Hp.
    - intros p e q t ret Hp. exact Hp.
    - intros error. split; [reflexivity|discriminate].
    - intros k entry path handlers handler matched params err w0 p e q _ _ _ _ _ Ha.
      rewrite attempt_no_builder in Ha.
      assert (In e (HandlerCalled handler request params None
                      (fst (call handler request params None w0))
                    :: match fst (call handler request params None w0) with
                       | Normal _ => []
                       | Throw error => [ErrorRecorded error]
                       end)) as Hin by (rewrite Ha; apply in_elt).
      destruct Hin as [<-|Hin].
      + split; [reflexivity|]. intros ? ? ? ? ? [= _ _ _ <- _]. reflexivity.
      + destruct (fst (call handler request params None w0)); [contradiction|].
        destruct Hin as [<-|[]]. split; [reflexivity|discriminate]. }
  split.
  - apply omap_all_None. eapply List.Forall_impl; [|exact Hall]. now intros ev [H _].
  - eapply List.Forall_impl; [|exact Hall]. now intros ev [_ H].
Qed.

Lemma no_builder_no_context_witness :
  let router := get "/user" (Examples.answering 2) (newRouter None) in
  let run := router_handler router (Examples.request "GET" "user" "") 0%nat in
  builderResults (snd run) = []
  /\ fst (fst run)
     = Normal (Examples.ok (JSObject [("id", JSUndefined); ("context", JSUndefined)])).
Proof.
  intros router run. split; [|reflexivity].
  exact (proj1 (no_builder_no_context router (Examples.request "GET" "user" "") 0%nat
                  (fst (fst run)) (snd (fst run)) (snd run) eq_refl eq_refl)).
Defined.

(** X4. A request that no candidate pattern matches has no effect on the
    application: neither the context builder nor any handler is invoked
    and the world is left as it was.  A pattern fails to match either
    quietly or with the URIError of an undecodable segment; the dispatch
    records one such error for each candidate whose matching throws and
    nothing else.  The answer is the 404 response when no candidate
    threw, and the 500 response with the URIError as its reason when one
    did.  A request whose method has no bucket, when nothing is registered
    under the wildcard, is answered 404. *)
Theorem no_match_no_effect {World : Type}
    (router : @ProtocolRouter World) request w :
  let parts := pathPartsOf request in
  let cands := candidates (toUpperCase (method request)) (routes router) in
  Forall (fun entry => fits parts entry = false) cands ->
  router_handler router request w
  = (Normal (if existsb (throwsOn parts) cands
             then internalError URIError else notFound),
     w,
     map (fun _ => ErrorRecorded URIError) (List.filter (throwsOn parts) cands))
  /\ builderResults (snd (router_handler router request w)) = []
  /\ handlersInvoked (snd (router_handler router request w)) = []
  /\ (Forall (fun entry => matchRoute (fst entry) parts = Normal None) cands ->
      router_handler router request w = (Normal notFound, w, []))
  /\ (cands = [] -> router_handler router request w = (Normal notFound, w, [])).
Proof.
  intros parts cands Hnone.
  assert (router_handler router request w
          = (Normal (if existsb (throwsOn parts) cands
                     then internalError URIError else notFound),
             w,
             map (fun _ => ErrorRecorded URIError)
                 (List.filter (throwsOn parts) cands))) as Hrun.
  { unfold router_handler. rewrite scan_candidates.
    fold parts cands. rewrite (forEach_tryPattern_no_fit _ _ _ _ _ _ Hnone).
    unfold conclude. cbn [returned continue lastError world trace].
    destruct (existsb (throwsOn parts) cands); reflexivity. }
  split; [exact Hrun|]. rewrite Hrun. cbn [snd]. clear Hrun.
  split; [|split; [|split]].
  - induction (List.filter (throwsOn parts) cands); [reflexivity|exact IHl].
  - induction (List.filter (throwsOn parts) cands); [reflexivity|exact IHl].
  - intros Hquiet.
    assert (List.filter (throwsOn parts) cands = []
            /\ existsb (throwsOn parts) cands = false) as [-> ->]; [|reflexivity].
    clear Hnone. induction Hquiet as [|entry rest Hm _ [IH1 IH2]];
      [split; reflexivity|].
    assert (throwsOn parts entry = false) as Hentry
      by (unfold throwsOn; now rewrite Hm).
    cbn [List.filter existsb]. rewrite Hentry. split; assumption.
  - intros ->. reflexivity.
Qed.

Lemma no_match_no_effect_witness :
  router_handler
    (get "/x/:id" (Examples.answering 2)
       (get "/user/:id" (Examples.answering 2)
          (post "/user" (Examples.answering 2) (newRouter (Some Examples.counting)))))
    (Examples.request "GET" "x" "/%") 0%nat
  = (Normal (internalError URIError), 0%nat, [ErrorRecorded URIError])
  /\ router_handler
       (get "/user/:id" (Examples.answering 2)
          (post "/user" (Examples.answering 2) (newRouter (Some Examples.counting))))
       (Examples.request "GET" "user" "") 0%nat
     = (Normal notFound, 0%nat, []).
Proof.
  split.
  - refine (proj1 (no_match_no_effect _ (Examples.request "GET" "x" "/%") 0%nat _)).
    repeat constructor.
  - refine (proj1 (no_match_no_effect _ (Examples.request "GET" "user" "") 0%nat _)).
    repeat constructor.
Defined.

(** X5. The handlers a dispatch invokes are taken, in order and each at
    most once, from the handler lists of the candidates whose pattern
    matches, in the order of the scan.  Without a context builder none is
    passed over: what was invoked is a prefix of that sequence, and the
    whole of it when the scan ran to its end without a response. *)
Theorem fallback_sequence {World : Type}
    (builder : option (@ContextBuilder World)) request (table : @Routes World) w :
  let sequence :=
    matchingHandlers (pathPartsOf request)
      (candidates (toUpperCase (method request)) table) in
  sublist (handlersInvoked (trace (scan builder request table w))) sequence
  /\ (handlersInvoked (trace (scan None request table w)) `prefix_of` sequence)
  /\ (returned (scan None request table w) = None ->
      handlersInvoked (trace (scan None request table w)) = sequence).
Proof.
  cbv zeta. rewrite !scan_candidates. split.
  - apply forEach_tryPattern_sublist.
  - apply forEach_tryPattern_prefix.
Qed.

Lemma fallback_sequence_witness :
  let table := routes
    (on "/user/:id" (Examples.failing 1 (JSString "c"))
       (get "/user/me" (Examples.failing 1 (JSString "b"))
          (post "/user/:id" (Examples.answering 1)
             (get "/user/:id" (Examples.failing 1 (JSString "a")) (newRouter None))))) in
  map (fun h => fst (call h (Examples.request "GET" "user" "/me") ∅ None 0%nat))
      (handlersInvoked (trace (scan None (Examples.request "GET" "user" "/me") table 0%nat)))
  = [Throw (JSString "a"); Throw (JSString "b"); Throw (JSString "c")].
Proof.
  intros table.
  rewrite (proj2 (proj2 (fallback_sequence None (Examples.request "GET" "user" "/me")
                           table 0%nat)) eq_refl).
  reflexivity.
Defined.

(** * Further properties of the matching *)

Section MatchingMore.



Lemma decodeFrom_no_percent s :
  hasPercent s = false -> decodeFrom 0 0 0 s = Normal s.
Proof.
  induction s as [|c rest IH]; simpl; [reflexivity|].
  intros H. apply orb_false_iff in H as [Hc Hrest].
  rewrite Hc, (IH Hrest). reflexivity.
Qed.

Lemma matchParts_throw pairs (params : Params) error :
  matchParts pairs params = Throw error ->
  exists routePart pathPart,
    In (routePart, pathPart) pairs /\ startsWithColon routePart = true
    /\ decodeURIComponent pathPart = Throw error.
Proof.
  revert params. induction pairs as [|[routePart pathPart] rest IH]; intros params; simpl.
  - discriminate.
  - destruct (startsWithColon routePart) eqn:Hc.
    + destruct (decodeURIComponent pathPart) as [value|e] eqn:Hd.
      * intros H. apply IH in H as (rp & pp & Hin & H). exists rp, pp. tauto.
      * intros [= <-]. exists routePart, pathPart. auto.
    + destruct (String.eqb routePart pathPart); simpl; [|discriminate].
      intros H. apply IH in H as (rp & pp & Hin & H). exists rp, pp. tauto.
Qed.

Lemma segmentFits_percent_free pairs :
  Forall (fun pair => hasPercent (snd pair) = false) pairs ->
  forallb segmentFits pairs = forallb segmentFits_spec pairs.
Proof.
  induction 1 as [|[routePart pathPart] rest Hp _ IH]; simpl; [reflexivity|].
  rewrite IH. f_equal. unfold decodes, decodeURIComponent.
  simpl in Hp. rewrite (decodeFrom_no_percent _ Hp).
  destruct (startsWithColon routePart); reflexivity.
Qed.

Lemma combine_percent_free (routeParts pathParts : list string) :
  Forall (fun s => hasPercent s = false) pathParts ->
  Forall (fun pair => hasPercent (snd pair) = false) (combine routeParts pathParts).
Proof.
  intros H. apply List.Forall_forall. intros [a b] Hin.
  apply in_combine_r in Hin. rewrite List.Forall_forall in H. now apply H.
Qed.

End MatchingMore.





(** X8. When no segment of the request holds a [%], the matching never
    throws, a pattern matches exactly when the segment counts agree and
    every pattern segment starts with [:] or equals the request segment
    under it, and a [:name] segment is bound to the request segment as it
    is. *)
Theorem percent_free_matching (path : string) (pathParts : list string) :
  Forall (fun s => hasPercent s = false) pathParts ->
  (forall params : Params,
     matchRoute path pathParts = Normal (Some params)
     <-> patternFits_spec path pathParts = true /\ params = paramsOf path pathParts)
  /\ (forall error, matchRoute path pathParts <> Throw error)
  /\ (forall routePart pathPart,
        In (routePart, pathPart) (combine (split path) pathParts) ->
        startsWithColon routePart = true ->
        In (slice1 routePart, pathPart) (bindings (combine (split path) pathParts))).
Proof.
  intros Hfree.
  pose proof (combine_percent_free (split path) pathParts Hfree) as Hpairs.
  split; [|split].
  - intros params. rewrite matchRoute_spec.
    unfold patternFits, patternFits_spec.
    now rewrite (segmentFits_percent_free _ Hpairs).
  - intros error H. unfold matchRoute in H.
    destruct (negb _); [discriminate H|].
    apply matchParts_throw in H as (rp & pp & Hin & _ & Hd).
    rewrite List.Forall_forall in Hpairs. specialize (Hpairs _ Hin). simpl in Hpairs.
    unfold decodeURIComponent in Hd.
    rewrite (decodeFrom_no_percent _ Hpairs) in Hd. discriminate Hd.
  - intros routePart pathPart Hin Hc. apply bindings_In.
    exists routePart, pathPart. repeat split; auto.
    rewrite List.Forall_forall in Hpairs. specialize (Hpairs _ Hin). simpl in Hpairs.
    unfold decodeURIComponent. now apply decodeFrom_no_percent.
Qed.

Lemma percent_free_matching_witness :
  matchRoute "/user/:id" [""; "user"; "a+b"] = Normal (Some {[ "id" := "a+b" ]}).
Proof.
  apply (proj1 (percent_free_matching "/user/:id" [""; "user"; "a+b"]
                  ltac:(repeat constructor))).
  split; reflexivity.
Defined.

(** X9. The only exception the matching of a pattern can raise, and so the
    only error the scan records on its own account, is the [URIError] of
    [decodeURIComponent], and it takes a request segment with a [%] in it
    under a [:name] segment of the pattern. *)
Theorem matching_throws_only_URIError (path : string) (pathParts : list string) error :
  matchRoute path pathParts = Throw error ->
  error = URIError
  /\ exists routePart pathPart,
       In (routePart, pathPart) (combine (split path) pathParts)
       /\ startsWithColon routePart = true
       /\ hasPercent pathPart = true.
Proof.
  intros H. unfold matchRoute in H. destruct (negb _); [discriminate H|].
  apply matchParts_throw in H as (rp & pp & Hin & Hc & Hd).
  split.
  - unfold decodeURIComponent in Hd.
    eapply (decodeFrom_throw (String.length pp)); [|exact Hd]. lia.
  - exists rp, pp. repeat split; auto.
    destruct (hasPercent pp) eqn:Hp; [reflexivity|].
    unfold decodeURIComponent in Hd.
    rewrite (decodeFrom_no_percent _ Hp) in Hd. discriminate Hd.
Qed.

Lemma matching_throws_only_URIError_witness :
  JSError "URIError" "URI malformed" = URIError
  /\ exists routePart pathPart,
       In (routePart, pathPart) (combine (split "/x/:id") [""; "x"; "%E0%80"])
       /\ startsWithColon routePart = true
       /\ hasPercent pathPart = true.
Proof.
  apply (matching_throws_only_URIError "/x/:id" [""; "x"; "%E0%80"]).
  reflexivity.
Defined.

(** * Further properties of the route table *)

Section RouteTableMore.

Context {World : Type}.

Implicit Types (r : @Routes World) (m : @RouteMap World)
  (h : @ProtocolHandler World) (hs : list (@ProtocolHandler World))
  (k : MethodKey) (path : string).

Lemma Map_set_keys path hs m :
  map fst (Map_set path hs m)
  = match Map_get path m with
    | Some _ => map fst m
    | None => map fst m ++ [path]
    end.
Proof.
  induction m as [|[p old] rest IH]; simpl; [reflexivity|].
  destruct (String.eqb p path); simpl; [reflexivity|].
  rewrite IH. destruct (Map_get path rest); reflexivity.
Qed.

Lemma routes_set_keys k m r :
  map fst (routes_set k m r)
  = match routes_get k r with
    | Some _ => map fst r
    | None => map fst r ++ [k]
    end.
Proof.
  induction r as [|[k0 old] rest IH]; simpl; [reflexivity|].
  destruct (MethodKey_eqb k0 k); simpl; [reflexivity|].
  rewrite IH. destruct (routes_get k rest); reflexivity.
Qed.

Lemma Map_get_None path m : Map_get path m = None -> ~ In path (map fst m).
Proof.
  induction m as [|[p old] rest IH]; simpl; [tauto|].
  destruct (String.eqb p path) eqn:E; [discriminate|].
  apply String.eqb_neq in E. intros H [Hp|Hin]; [contradiction|]. now apply IH.
Qed.

Lemma routes_get_None k r : routes_get k r = None -> ~ In k (map fst r).
Proof.
  induction r as [|[k0 old] rest IH]; simpl; [tauto|].
  destruct (MethodKey_eqb k0 k) eqn:E; [discriminate|].
  apply MethodKey_eqb_neq in E. intros H [Hp|Hin]; [contradiction|]. now apply IH.
Qed.

Lemma NoDup_snoc {A : Type} (l : list A) (x : A) :
  List.NoDup l -> ~ In x l -> List.NoDup (l ++ [x]).
Proof.
  induction 1 as [|y l Hy Hl IH]; simpl; intros Hx.
  - constructor; [tauto|constructor].
  - constructor.
    + rewrite in_app_iff. simpl. intros [H|[H|[]]]; [contradiction|]. subst. tauto.
    + apply IH. tauto.
Qed.

Lemma Map_set_NoDup path hs m :
  List.NoDup (map fst m) -> List.NoDup (map fst (Map_set path hs m)).
Proof.
  intros H. rewrite Map_set_keys.
  destruct (Map_get path m) eqn:E; [assumption|].
  apply NoDup_snoc; [assumption|now apply Map_get_None].
Qed.

Lemma routes_set_buckets (Q : @RouteMap World -> Prop) k m r :
  Q m -> Forall (fun bucket => Q (snd bucket)) r ->
  Forall (fun bucket => Q (snd bucket)) (routes_set k m r).
Proof.
  intros Hm. induction 1 as [|[k0 old] rest Hold Hrest IH]; simpl.
  - constructor; auto.
  - destruct (MethodKey_eqb k0 k); constructor; auto.
Qed.

Lemma add_routes_wellKeyed k path h r :
  wellKeyed r -> wellKeyed (add_routes k path h r).
Proof.
  intros [Hkeys Hbuckets]. unfold add_routes, wellKeyed.
  destruct (routes_get k r) as [m|] eqn:Hk.
  - assert (List.NoDup (map fst m)) as Hm.
    { apply routes_get_In in Hk. rewrite List.Forall_forall in Hbuckets.
      apply (Hbuckets _ Hk). }
    destruct (Map_get path m) as [old|]; rewrite routes_set_keys, Hk;
      (split; [assumption|]);
      apply (routes_set_buckets (fun m => List.NoDup (map fst m))); auto;
      now apply Map_set_NoDup.
  - rewrite routes_set_keys, Hk. split.
    + apply NoDup_snoc; [assumption|now apply routes_get_None].
    + apply (routes_set_buckets (fun m => List.NoDup (map fst m))); auto.
      simpl. constructor; [tauto|constructor].
Qed.

Lemma In_Map_get path hs m :
  List.NoDup (map fst m) -> In (path, hs) m -> Map_get path m = Some hs.
Proof.
  induction m as [|[p old] rest IH]; simpl; [tauto|].
  intros Hnd [Heq|Hin]; apply NoDup_cons_iff in Hnd as [Hfresh Hnd].
  - injection Heq as -> ->. now rewrite String.eqb_refl.
  - destruct (String.eqb p path) eqn:E; [|auto].
    apply String.eqb_eq in E; subst p. exfalso. apply Hfresh.
    change path with (fst (path, hs)). now apply in_map.
Qed.

Lemma In_routes_get k m r :
  List.NoDup (map fst r) -> In (k, m) r -> routes_get k r = Some m.
Proof.
  induction r as [|[k0 old] rest IH]; simpl; [tauto|].
  intros Hnd [Heq|Hin]; apply NoDup_cons_iff in Hnd as [Hfresh Hnd].
  - injection Heq as -> ->. now rewrite (proj2 (MethodKey_eqb_eq k k) eq_refl).
  - destruct (MethodKey_eqb k0 k) eqn:E; [|auto].
    apply MethodKey_eqb_eq in E; subst k0. exfalso. apply Hfresh.
    change k with (fst (k, m)). now apply in_map.
Qed.

Lemma wellKeyed_handlersAt r k path hs :
  wellKeyed r ->
  (handlersAt k path r = Some hs
   <-> exists entry, In (k, entry) r /\ In (path, hs) entry).
Proof.
  intros [Hkeys Hbuckets]. unfold handlersAt. split.
  - destruct (routes_get k r) as [m|] eqn:Hk; [|discriminate].
    intros Hp. exists m. split; [now apply routes_get_In|now apply Map_get_In].
  - intros (entry & Hk & Hp).
    rewrite (In_routes_get _ _ _ Hkeys Hk). apply In_Map_get; [|assumption].
    rewrite List.Forall_forall in Hbuckets. apply (Hbuckets _ Hk).
Qed.






End RouteTableMore.

(** X10. The route table never holds a method key twice, nor a pattern
    twice in one bucket: a new router has no key and every registration
    operation keeps the keys unique.  On such a table the handler list
    found under a (method, pattern) key is the one list the dispatcher
    meets for that method and pattern when it enumerates the table. *)
Theorem keys_stay_unique {World : Type} :
  (forall cb : option (@ContextBuilder World), wellKeyed (routes (newRouter cb)))
  /\ forall op path (h : @ProtocolHandler World) router,
       In op registrationOps ->
       wellKeyed (routes router) ->
       wellKeyed (routes (op path h router))
       /\ forall k p hs,
            handlersAt k p (routes (op path h router)) = Some hs
            <-> exists entry, In (k, entry) (routes (op path h router))
                              /\ In (p, hs) entry.
Proof.
  split.
  - intros cb. split; constructor.
  - intros op path h router Hop Hwk.
    apply registrationOps_add in Hop as [k0 ->]. simpl.
    assert (wellKeyed (add_routes k0 path h (routes router))) as Hwk'
      by now apply add_routes_wellKeyed.
    split; [assumption|]. intros k p hs. now apply wellKeyed_handlersAt.
Qed.

Lemma keys_stay_unique_witness :
  let router := get "/user" (Examples.failing 1 Examples.boom)
                  (on "/user" (Examples.answering 1) (newRouter None)) in
  map fst (routes (get "/user" (Examples.answering 2) router)) = [Wildcard; Method GET]
  /\ wellKeyed (routes (get "/user" (Examples.answering 2) router)).
Proof.
  intros router. split; [reflexivity|].
  apply (proj2 keys_stay_unique get "/user" (Examples.answering 2) router).
  - left. reflexivity.
  - split; repeat constructor; simpl; intuition discriminate.
Defined.



(** X12. Where a registration lands in the enumeration order.  A method
    registered for the first time gets its bucket after all the others
    and a pattern registered for the first time under a method goes after
    the patterns that bucket holds; a method or a pattern that is already
    there keeps its place, and the buckets of the other methods are not
    touched.  Within a bucket the order in which the dispatcher tries
    patterns is thus the order of their first registration, whatever is
    registered later; the buckets themselves are tried in the order of
    the first registration of their method. *)
Theorem registration_keeps_enumeration_order {World : Type}
    k path (h : @ProtocolHandler World) router :
  map fst (routes (add k path h router))
  = match routes_get k (routes router) with
    | Some _ => map fst (routes router)
    | None => map fst (routes router) ++ [k]
    end
  /\ map fst (default [] (routes_get k (routes (add k path h router))))
     = match handlersAt k path (routes router) with
       | Some _ => map fst (default [] (routes_get k (routes router)))
       | None => map fst (default [] (routes_get k (routes router))) ++ [path]
       end
  /\ forall k', k' <> k ->
       routes_get k' (routes (add k path h router)) = routes_get k' (routes router).
Proof.
  simpl. unfold add_routes, handlersAt. split; [|split].
  - destruct (routes_get k (routes router)) as [m|] eqn:Hk.
    + destruct (Map_get path m); now rewrite routes_set_keys, Hk.
    + now rewrite routes_set_keys, Hk.
  - destruct (routes_get k (routes router)) as [m|] eqn:Hk.
    + destruct (Map_get path m) as [old|] eqn:Hp;
        rewrite routes_get_set_same; simpl; now rewrite Map_set_keys, Hp.
    + rewrite routes_get_set_same. reflexivity.
  - intros k' Hne.
    destruct (routes_get k (routes router)) as [m|]; [destruct (Map_get path m)|];
      now apply routes_get_set_other.
Qed.

Lemma registration_keeps_enumeration_order_witness :
  let router := get "/b" (Examples.answering 1)
                  (get "/a" (Examples.answering 1) (@newRouter Examples.W None)) in
  map fst (routes (add (Method GET) "/a" (Examples.failing 1 Examples.boom) router))
  = [Method GET]
  /\ map fst (default [] (routes_get (Method GET)
                (routes (add (Method GET) "/a" (Examples.failing 1 Examples.boom) router))))
     = ["/a"; "/b"]
  /\ routes_get (Method POST)
       (routes (add (Method GET) "/a" (Examples.failing 1 Examples.boom) router))
     = None.
Proof.
  intros router.
  destruct (registration_keeps_enumeration_order (Method GET) "/a"
              (Examples.failing 1 Examples.boom) router) as (H1 & H2 & H3).
  split; [exact H1|]. split; [exact H2|].
  rewrite (H3 (Method POST)); [reflexivity|discriminate].
Defined.

(** X13. Registrations under different (method, pattern) keys can be made
    in either order without changing the handler list stored under any
    key; under one and the same key the order of two registrations is the
    order of the two handlers in the list. *)
Theorem registrations_commute_across_keys {World : Type}
    k1 path1 (h1 : @ProtocolHandler World) k2 path2 h2 router :
  ((k1, path1) <> (k2, path2) ->
   forall k p,
     handlersAt k p (routes (add k1 path1 h1 (add k2 path2 h2 router)))
     = handlersAt k p (routes (add k2 path2 h2 (add k1 path1 h1 router))))
  /\ handlersAt k1 path1 (routes (add k1 path1 h2 (add k1 path1 h1 router)))
     = Some (default [] (handlersAt k1 path1 (routes router)) ++ [h1; h2]).
Proof.
  split.
  - intros Hne k p. simpl.
    destruct (MethodKey_eqb k1 k) eqn:E1; [destruct (String.eqb path1 p) eqn:P1|];
    destruct (MethodKey_eqb k2 k) eqn:E2; try destruct (String.eqb path2 p) eqn:P2;
    repeat match goal with
    | H : MethodKey_eqb _ _ = true |- _ => apply MethodKey_eqb_eq in H
    | H : MethodKey_eqb _ _ = false |- _ => apply MethodKey_eqb_neq in H
    | H : String.eqb _ _ = true |- _ => apply String.eqb_eq in H
    | H : String.eqb _ _ = false |- _ => apply String.eqb_neq in H
    end; subst; try congruence;
    repeat first
      [ rewrite handlersAt_add_same
      | rewrite handlersAt_add_other by congruence ];
    reflexivity.
  - simpl. rewrite !handlersAt_add_same. simpl. now rewrite <- app_assoc.
Qed.

Lemma registrations_commute_across_keys_witness :
  let router := @newRouter Examples.W None in
  handlersAt (Method GET) "/a"
    (routes (add (Method GET) "/a" (Examples.answering 1)
               (add (Method GET) "/b" (Examples.answering 2) router)))
  = handlersAt (Method GET) "/a"
      (routes (add (Method GET) "/b" (Examples.answering 2)
                 (add (Method GET) "/a" (Examples.answering 1) router))).
Proof.
  intros router.
  apply (proj1 (registrations_commute_across_keys
                  (Method GET) "/a" (Examples.answering 1)
                  (Method GET) "/b" (Examples.answering 2) router)).
  discriminate.
Defined.

(** * Properties of the provider *)

Section ProviderFacts.

Context {World : Type}.




End ProviderFacts.



(** * Registration and dispatch together *)

Section Elsewhere.

Context {World : Type}.

Variable builder : option (@ContextBuilder World).
Variable request : Request.

Lemma forEach_Map_set_no_match pathParts path hs (m : @RouteMap World) err w :
  matchRoute path pathParts = Normal None ->
  forEach (tryPattern builder request pathParts) (Map_set path hs m) err w
  = forEach (tryPattern builder request pathParts) m err w.
Proof.
  intros Hm.
  assert (forall hs' err' w', tryPattern builder request pathParts (path, hs') err' w'
                              = continue err' w' []) as Hskip
    by (intros; unfold tryPattern; now rewrite Hm).
  revert err w. induction m as [|[p old] rest IH]; intros err w; cbn [Map_set forEach].
  - rewrite Hskip. cbn [returned continue trace lastError world]. now rewrite emit_nil.
  - destruct (String.eqb p path) eqn:E.
    + apply String.eqb_eq in E; subst p. cbn [forEach]. now rewrite !Hskip.
    + cbn [forEach].
      destruct (returned (tryPattern builder request pathParts (p, old) err w));
        [reflexivity|]. now rewrite IH.
Qed.

Lemma forEach_routes_set_same pathParts requestMethod k m m' (r : @Routes World) :
  routes_get k r = Some m ->
  (forall err w, tryBucket builder request pathParts requestMethod (k, m') err w
                 = tryBucket builder request pathParts requestMethod (k, m) err w) ->
  forall err w,
    forEach (tryBucket builder request pathParts requestMethod) (routes_set k m' r) err w
    = forEach (tryBucket builder request pathParts requestMethod) r err w.
Proof.
  intros Hk Hsame. induction r as [|[k0 old] rest IH]; intros err w;
    cbn [routes_get routes_set forEach] in *.
  - discriminate Hk.
  - destruct (MethodKey_eqb k0 k) eqn:E.
    + apply MethodKey_eqb_eq in E; subst k0. injection Hk as ->.
      cbn [forEach]. now rewrite Hsame.
    + cbn [forEach].
      destruct (returned (tryBucket builder request pathParts requestMethod (k0, old) err w));
        [reflexivity|]. now rewrite (IH Hk).
Qed.

Lemma forEach_routes_set_new pathParts requestMethod k m' (r : @Routes World) :
  routes_get k r = None ->
  (forall err w, tryBucket builder request pathParts requestMethod (k, m') err w
                 = continue err w []) ->
  forall err w,
    forEach (tryBucket builder request pathParts requestMethod) (routes_set k m' r) err w
    = forEach (tryBucket builder request pathParts requestMethod) r err w.
Proof.
  intros Hk Hskip. induction r as [|[k0 old] rest IH]; intros err w;
    cbn [routes_get routes_set forEach] in *.
  - rewrite Hskip. cbn [returned continue trace lastError world]. now rewrite emit_nil.
  - destruct (MethodKey_eqb k0 k) eqn:E; [discriminate Hk|].
    cbn [forEach].
    destruct (returned (tryBucket builder request pathParts requestMethod (k0, old) err w));
      [reflexivity|]. now rewrite (IH Hk).
Qed.

Lemma scan_add_routes_elsewhere k path h (r : @Routes World) w :
  skipped k (toUpperCase (method request)) = true
  \/ matchRoute path (pathPartsOf request) = Normal None ->
  scan builder request (add_routes k path h r) w = scan builder request r w.
Proof.
  intros Hcond. unfold scan, add_routes.
  destruct (routes_get k r) as [m|] eqn:Hk.
  - assert (forall hs err' w',
              tryBucket builder request (pathPartsOf request)
                (toUpperCase (method request)) (k, Map_set path hs m) err' w'
              = tryBucket builder request (pathPartsOf request)
                  (toUpperCase (method request)) (k, m) err' w') as Hsame.
    { intros hs err' w'. unfold tryBucket.
      destruct (skipped k _) eqn:Hs; [reflexivity|].
      destruct Hcond as [Hc|Hc]; [discriminate Hc|].
      now apply forEach_Map_set_no_match. }
    destruct (Map_get path m); now apply (forEach_routes_set_same _ _ _ m).
  - apply forEach_routes_set_new; [assumption|].
    intros err' w'. unfold tryBucket.
    destruct (skipped k _) eqn:Hs; [reflexivity|].
    destruct Hcond as [Hc|Hc]; [discriminate Hc|].
    cbn [Map_set forEach]. unfold tryPattern. rewrite Hc. reflexivity.
Qed.

End Elsewhere.

(** X15. A registration is invisible to the requests it does not concern:
    a handler registered under another method than the request's (and not
    under the wildcard), or under a pattern that rejects the request's
    path without an exception, changes neither the response, nor the
    effects, nor anything the dispatcher does for that request.  A pattern
    rejects a path without an exception when the two differ in their
    number of segments, or when the first segment pair that does not fit
    is a literal one: a [:name] segment whose request segment cannot be
    decoded, met before any literal that differs, throws instead, and
    such a registration is visible. *)
Theorem registration_elsewhere_is_invisible {World : Type}
    k path (h : @ProtocolHandler World) router request w :
  (skipped k (toUpperCase (method request)) = true
   \/ matchRoute path (pathPartsOf request) = Normal None ->
   router_handler (add k path h router) request w = router_handler router request w)
  /\ (matchRoute path (pathPartsOf request) = Normal None
      <-> length (split path) <> length (pathPartsOf request)
          \/ exists routePart pathPart,
               firstMisfit (combine (split path) (pathPartsOf request))
               = Some (routePart, pathPart)
               /\ startsWithColon routePart = false).
Proof.
  split.
  - intros Hcond. unfold router_handler. simpl.
    now rewrite (scan_add_routes_elsewhere _ _ _ _ _ _ _ Hcond).
  - destruct (Nat.eq_dec (length (split path)) (length (pathPartsOf request)))
      as [Hlen|Hlen].
    + rewrite (matchRoute_firstMisfit _ _ Hlen).
      destruct (firstMisfit _) as [[routePart pathPart]|].
      * destruct (startsWithColon routePart) eqn:Hcolon; split.
        -- discriminate.
        -- intros [Hne|(rp & pp & [= <- <-] & Hc)]; [contradiction|congruence].
        -- intros _. right. exists routePart, pathPart. auto.
        -- reflexivity.
      * split; [discriminate|].
        intros [Hne|(rp & pp & Hsome & _)]; [contradiction|discriminate Hsome].
    + rewrite (matchRoute_length _ _ Hlen). split; auto.
Qed.

Lemma registration_elsewhere_is_invisible_witness :
  let router := get "/user/:id" (Examples.answering 2)
                  (newRouter (Some Examples.counting)) in
  router_handler (add (Method POST) "/user/:id" (Examples.failing 1 Examples.boom) router)
    (Examples.request "GET" "user" "/7") 0%nat
  = router_handler router (Examples.request "GET" "user" "/7") 0%nat
  /\ router_handler (add (Method GET) "/user" (Examples.failing 1 Examples.boom) router)
       (Examples.request "GET" "user" "/7") 0%nat
     = router_handler router (Examples.request "GET" "user" "/7") 0%nat
  /\ router_handler (add (Method GET) "/x/:id" (Examples.failing 1 Examples.boom) router)
       (Examples.request "GET" "user" "/%") 0%nat
     = router_handler router (Examples.request "GET" "user" "/%") 0%nat.
Proof.
  intros router. split; [|split].
  - apply registration_elsewhere_is_invisible. left. reflexivity.
  - apply registration_elsewhere_is_invisible. right. reflexivity.
  - apply registration_elsewhere_is_invisible. right.
    refine (proj2 (proj2 (@registration_elsewhere_is_invisible Examples.W
              (Method GET) "/x/:id" (Examples.answering 1) router
              (Examples.request "GET" "user" "/%") 0%nat)) _).
    right. exists "x", "user". split; reflexivity.
Defined.

(** A registration whose pattern throws on the request's path is visible:
    it turns the 404 answer into the 500 one. *)
Example registration_that_throws_is_visible :
  let router := get "/user" (Examples.answering 1) (@newRouter Examples.W None) in
  let request := Examples.request "GET" "x" "/%" in
  fst (fst (router_handler router request 0%nat)) = Normal notFound
  /\ fst (fst (router_handler
                 (get "/x/:id" (Examples.answering 1) router) request 0%nat))
     = Normal (internalError URIError).
Proof. split; reflexivity. Qed.

(** The provider at work: the router of the second scheme holds no
    registration, so the scheme is privileged and the session gets no
    handler for it. *)
Example provider_skips_empty_router :
  let p := Provider.apply
             (Provider.register (mkCustomScheme "empty" None)
                (fun w : Examples.W => (newRouter None, w))
                (Provider.create (mkCustomScheme "hello" None)
                   (fun w => (get "/:name" (Examples.answering 1) (newRouter None), w)))) in
  map (map scheme) (Provider.privileged p) = [["hello"; "empty"]]
  /\ fst (fst (Provider.sessionCreated p [] 0%nat)) = ["hello"].
Proof. split; reflexivity. Qed.
